(** * The tutorial notebook [docs/tutorials/mixing_single_cell.ipynb]

    The notebook is the only file of the repository at hand.  It is a
    sequence of Markdown and Python code cells that drives the gammaALPs
    library: it builds an [ALP], a [Source] and a [ModuleList], adds one
    propagation module, overrides the angles [psin] of that module, runs
    the photon-ALP mixing and plots the ALP probability.

    The development has these layers:
    - [Ipynb]: the notebook as stored (cells, source lines, recorded
      outputs), transcribed from the JSON file;
    - [PyLex] and [PyAst]: a lexer for the Python of the code cells, the
      syntax tree of each cell, and the check that the tree prints to
      exactly the tokens of the stored source;
    - [F64] and [Numpy]: IEEE binary64 numbers and the numpy operations the
      cells call ([logspace], [diag], [ones_like], array arithmetic);
    - [Py]: an interpreter for the statements of the cells over an
      environment, a heap of objects and a standard output, with the
      gammaALPs library as an interface;
    - [GammaALPs]: the library calls of the notebook, modelled from the
      specification, since the library's code is not in the source at hand;
    - [Analysis]: static analyses of the syntax trees. *)

From Stdlib Require Import ZArith List Ascii String SpecFloat DecimalString Lia.
From stdpp Require Import base option strings list gmap.

Local Open Scope list_scope.
Set Warnings "-register-all".

(** ** Characters that a Rocq string literal cannot hold *)

Definition nl : string := String (ascii_of_nat 10) EmptyString.
Definition dq : string := String (ascii_of_nat 34) EmptyString.

(** ** IEEE 754 binary64, the Python [float] and numpy [float64] *)

Module F64.

Definition prec : Z := 53.
Definition emax : Z := 1024.

Definition mul : spec_float -> spec_float -> spec_float := SFmul prec emax.
Definition add : spec_float -> spec_float -> spec_float := SFadd prec emax.
Definition sub : spec_float -> spec_float -> spec_float := SFsub prec emax.
Definition div : spec_float -> spec_float -> spec_float := SFdiv prec emax.

(** The nearest binary64 to an integer (round to nearest, ties to even). *)
Definition of_Z (z : Z) : spec_float := binary_normalize prec emax z 0 false.

Definition zero : spec_float := of_Z 0.
Definition one : spec_float := of_Z 1.
Definition two : spec_float := of_Z 2.
Definition ten : spec_float := of_Z 10.

(** The value of a decimal literal [m * 10^e].  For [e >= 0] the integer is
    rounded once.  For [e < 0] the quotient of [m] by [10^(-e)] is rounded
    once, which is the correctly rounded literal when both are binary64
    numbers (below [2^53]); other literals are not given a value. *)
Definition of_decimal (m e : Z) : option spec_float :=
  if (0 <=? e)%Z then Some (of_Z (m * 10 ^ e))
  else if ((Z.abs m <? 2 ^ 53) && (10 ^ (- e) <? 2 ^ 53))%Z
       then Some (div (of_Z m) (of_Z (10 ^ (- e))))
       else None.

End F64.

(** ** The notebook file *)

Module Ipynb.

(** A recorded output of a code cell.  The PNG payload of a [display_data]
    output is not part of the model; its [text/plain] alternative is. *)
Inductive output :=
| Stream (name : string) (text : list string)
| ExecuteResult (execution_count : nat) (text_plain : list string)
| DisplayData (text_plain : list string).

(** A cell.  [source] holds the lines of the cell without their line
    terminators; [text] of an output holds its strings as stored. *)
Inductive cell :=
| Markdown (source : list string)
| Code (execution_count : nat) (source : list string) (outputs : list output).

Definition is_code (c : cell) : bool :=
  match c with Code _ _ _ => true | Markdown _ => false end.

Definition source (c : cell) : list string :=
  match c with Markdown s => s | Code _ s _ => s end.

Definition outputs (c : cell) : list output :=
  match c with Markdown _ => [] | Code _ _ o => o end.

Definition execution_counts (nb : list cell) : list nat :=
  flat_map (fun c => match c with Code n _ _ => [n] | Markdown _ => [] end) nb.

(** The text of a cell: its lines joined by line feeds. *)
Fixpoint unlines (ls : list string) : string :=
  match ls with
  | [] => ""
  | [l] => l
  | l :: ls' => l +:+ nl +:+ unlines ls'
  end.

Definition text (c : cell) : string := unlines (source c).

(** What the recorded run wrote on the named stream, cell after cell. *)
Definition stream_text (name : string) (nb : list cell) : list string :=
  flat_map (fun c =>
    flat_map (fun o =>
      match o with
      | Stream n t => if String.eqb n name then t else []
      | _ => []
      end) (outputs c)) nb.


End Ipynb.

Import Ipynb.

(** The cells of [mixing_single_cell.ipynb], in the order of the file. *)
Definition mixing_single_cell : list cell := [
  Markdown [
    "# Mixing in a homogeneous magnetic field";
    "";
    "This tutorial demonstrates the most simple use case of the gammaALPs code, namely the mixing between photons and ALPs in a homogeneous magnetic field. The magnetic-field parameters are probably not very realisitic, but the results nicely illustrate some of the main features of photon-ALP mixing. " ];
  Markdown [ "We first import the relevant modules:" ];
  Code 1 [
    "from gammaALPs.core import Source, ALP, ModuleList";
    "from gammaALPs.base.transfer import EminGeV, EmaxGeV";
    "import numpy as np";
    "import matplotlib.pyplot as plt";
    "from astropy import constants as c" ] [];
  Markdown [ "And set the ALP parameters:" ];
  Code 2 [
    "m, g = 10., 3.";
    "alp = ALP(m, g)" ] [];
  Markdown [ "Let's define an energy range for this example, in GeV." ];
  Code 3 [ "EGeV = np.logspace(0.,8.,1000)" ] [];
  Markdown [ "For the initial polarization, we use a fully polarized photon beam," ];
  Code 4 [ "pin = np.diag((1., 0., 0.))" ] [];
  Markdown [ "And we define some dummy source:" ];
  Code 5 [ "src = Source(z=0., l=0., b=0.)" ] [];
  Markdown [ "With the defined `alp`, `src`, initial polarization `pin` and energy range `EGeV`, we can now initialize our module list" ];
  Code 6 [ "ml = ModuleList(alp, src, pin=pin, EGeV=EGeV, seed=0)" ] [];
  Markdown [
    "We add a single propagation enivironment, mixing in a cell-like field in a galaxy cluster. ";
    "By setting `eta` and `beta` to zero, we force the electron density to be constant, so ";
    "that neither the magnetic field nor the electron density change with propagation distance. ";
    "We choose arbitrary values for B-field strength and electron density that give nice results for illustration. " ];
  Code 7 [
    "ml.add_propagation(environ='ICMCell',";
    "                   order=0,   # order of the module";
    "                   B0=1.,  # B field strength";
    "                   L0=10.,  # cell size";
    "                   nsim=1,  # one single realization";
    "                   n0=1e-3,  # electron density";
    "                   r_abell=10.1,  # full path, chosen that we only have a single cell";
    "                   beta=0., ";
    "                   eta=0.";
    "                  )" ] [];
  Markdown [ "Now we explicitly set the angle $\psi$ between the transversal magnetic field and the $x$ direction to $\pi / 2$ so that the $x$ polarization will fully mix. " ];
  Code 8 [ "ml.modules[0].psin = np.ones_like(ml.modules[0].psin) * np.pi / 2." ] [];
  Markdown [ "We run the photon-ALP calculation to get the final oscillation probabilities into the two photon polarization states and into the ALP state" ];
  Code 9 [
    "px, py, pa = ml.run()";
    "print (pa.shape)" ]
    [ Stream "stdout" [ "(1, 1000)" +:+ nl ] ];
  Markdown [ "And plot the results:" ];
  Code 10 [
    "plt.semilogx(EGeV, pa[0], lw=2)";
    "";
    "# the critical energy, onset of strong mixing regime";
    "plt.axvline(EminGeV(m_neV=ml.alp.m, g11=ml.alp.g, BmuG=ml.modules[0].B, n_cm3=ml.modules[0].nel),";
    "            lw=1., ls='--', color='k')";
    "";
    "# maximum energy, end of strong mixing regime";
    "plt.axvline(EmaxGeV(g11=ml.alp.g, BmuG=ml.modules[0].B),";
    "            lw=1., ls='-.', color='k')";
    "";
    "plt.xlabel(" +:+ dq +:+ "Energy (GeV)" +:+ dq +:+ ")";
    "plt.ylabel(" +:+ dq +:+ "$P_{a\gamma}$" +:+ dq +:+ ")" ]
    [ ExecuteResult 10 [ "Text(0, 0.5, '$P_{a\\gamma}$')" ];
      DisplayData [ "<Figure size 432x288 with 1 Axes>" ] ]
].

(** The language of the kernel the notebook was run with. *)
Definition kernel_language : string * string := ("python", "3.8.5").

Definition code_cells : list cell := filter (fun c => is_code c = true) mixing_single_cell.

(** ** Lexical structure of the Python in the code cells *)

Module PyLex.

Inductive token :=
| TName (s : string)      (* identifier or keyword *)
| TNum (s : string)       (* numeric literal, as written *)
| TStr (s : string)       (* string literal, the text between its quotes *)
| TOp (c : ascii)         (* operator or delimiter character *)
| TNewline                (* end of a logical line *)
| TIndent                 (* a logical line that starts with blanks *)
| TError.                 (* not a token of the language *)

Global Instance token_eq_dec : EqDecision token.
Proof. solve_decision. Defined.

Definition code (c : ascii) : nat := nat_of_ascii c.

Definition between (lo hi : nat) (c : ascii) : bool :=
  Nat.leb lo (code c) && Nat.leb (code c) hi.

Definition is_digit : ascii -> bool := between 48 57.
Definition is_letter (c : ascii) : bool :=
  between 65 90 c || between 97 122 c || Ascii.eqb c "_".
Definition is_name_char (c : ascii) : bool := is_letter c || is_digit c.
Definition is_blank (c : ascii) : bool := Ascii.eqb c " " || Nat.eqb (code c) 9.
Definition is_newline (c : ascii) : bool := Nat.eqb (code c) 10.
Definition is_quote (c : ascii) : bool := Ascii.eqb c "'" || Nat.eqb (code c) 34.
Definition is_open (c : ascii) : bool :=
  Ascii.eqb c "(" || Ascii.eqb c "[" || Ascii.eqb c "{".
Definition is_close (c : ascii) : bool :=
  Ascii.eqb c ")" || Ascii.eqb c "]" || Ascii.eqb c "}".
Definition is_punct (c : ascii) : bool :=
  between 33 47 c || between 58 64 c || between 91 96 c || between 123 126 c.

Fixpoint last_char (s : string) : option ascii :=
  match s with
  | EmptyString => None
  | String c EmptyString => Some c
  | String _ s' => last_char s'
  end.

Definition is_exponent_mark (c : ascii) : bool := Ascii.eqb c "e" || Ascii.eqb c "E".

(** Whether [c] continues the numeric literal [acc]: a digit, the point, an
    exponent mark, or a sign right after the exponent mark. *)
Definition continues_number (acc : string) (c : ascii) : bool :=
  is_digit c || Ascii.eqb c "." || is_exponent_mark c
  || ((Ascii.eqb c "-" || Ascii.eqb c "+")
      && match last_char acc with Some l => is_exponent_mark l | None => false end).

Definition snoc (s : string) (c : ascii) : string := s +:+ String c EmptyString.

Inductive mode :=
| Idle
| InName (acc : string)
| InNum (acc : string)
| InStr (quote : ascii) (acc : string) (escaped : bool)
| InComment.

(** The lexer's state: the token being read, the depth of open brackets,
    whether the current logical line has a token yet, and whether it began
    with blanks. *)
Record lexer := Lexer {
  lx_mode : mode;
  lx_depth : nat;
  lx_started : bool;
  lx_indent : bool
}.

Definition initial : lexer := Lexer Idle 0 false false.

(** Tokens to emit when a token starts: the indentation mark if this token
    is the first of a logical line that began with blanks. *)
Definition opening (st : lexer) : list token :=
  if negb (lx_started st) && Nat.eqb (lx_depth st) 0 && lx_indent st
  then [TIndent] else [].

(** One character read while no token is in progress. *)
Definition idle_step (st : lexer) (c : ascii) : list token * lexer :=
  let d := lx_depth st in
  if is_newline c then
    match d with
    | O => (if lx_started st then [TNewline] else [], Lexer Idle 0 false false)
    | S _ => ([], Lexer Idle d (lx_started st) (lx_indent st))
    end
  else if is_blank c then
    ([], Lexer Idle d (lx_started st) (lx_indent st || (negb (lx_started st) && Nat.eqb d 0)))
  else if Ascii.eqb c "#" then ([], Lexer InComment d (lx_started st) (lx_indent st))
  else if is_letter c then
    (opening st, Lexer (InName (String c EmptyString)) d true (lx_indent st))
  else if is_digit c then
    (opening st, Lexer (InNum (String c EmptyString)) d true (lx_indent st))
  else if is_quote c then
    (opening st, Lexer (InStr c EmptyString false) d true (lx_indent st))
  else if is_open c then
    (opening st ++ [TOp c], Lexer Idle (S d) true (lx_indent st))
  else if is_close c then
    (opening st ++ [TOp c], Lexer Idle (Nat.pred d) true (lx_indent st))
  else if is_punct c then
    (opening st ++ [TOp c], Lexer Idle d true (lx_indent st))
  else ([TError], Lexer Idle d true (lx_indent st)).

Definition with_mode (st : lexer) (m : mode) : lexer :=
  Lexer m (lx_depth st) (lx_started st) (lx_indent st).

(** One character. *)
Definition step (st : lexer) (c : ascii) : list token * lexer :=
  match lx_mode st with
  | Idle => idle_step st c
  | InComment =>
      if is_newline c then idle_step (with_mode st Idle) c else ([], st)
  | InName acc =>
      if is_name_char c then ([], with_mode st (InName (snoc acc c)))
      else let '(ts, st') := idle_step (with_mode st Idle) c in (TName acc :: ts, st')
  | InNum acc =>
      if continues_number acc c then ([], with_mode st (InNum (snoc acc c)))
      else let '(ts, st') := idle_step (with_mode st Idle) c in (TNum acc :: ts, st')
  | InStr q acc esc =>
      if esc then ([], with_mode st (InStr q (snoc acc c) false))
      else if Ascii.eqb c "\" then ([], with_mode st (InStr q (snoc acc c) true))
      else if Ascii.eqb c q then ([TStr acc], with_mode st Idle)
      else if is_newline c then ([TError], with_mode st Idle)
      else ([], with_mode st (InStr q (snoc acc c) false))
  end.

(** The end of the text closes the token in progress and the logical line. *)
Definition finish (st : lexer) : list token :=
  match lx_mode st with
  | InName acc => [TName acc]
  | InNum acc => [TNum acc]
  | InStr _ _ _ => [TError]
  | Idle | InComment => []
  end ++ (if lx_started st then [TNewline] else []).

Fixpoint run (st : lexer) (s : string) : list token :=
  match s with
  | EmptyString => finish st
  | String c s' => let '(ts, st') := step st c in ts ++ run st' s'
  end.

Definition lex (s : string) : list token := run initial s.

(** The keywords of Python 3.8. *)
Definition keywords : list string := [
  "False"; "None"; "True"; "and"; "as"; "assert"; "async"; "await"; "break";
  "class"; "continue"; "def"; "del"; "elif"; "else"; "except"; "finally";
  "for"; "from"; "global"; "if"; "import"; "in"; "is"; "lambda"; "nonlocal";
  "not"; "or"; "pass"; "raise"; "return"; "try"; "while"; "with"; "yield" ].

Definition is_keyword (s : string) : bool := existsb (String.eqb s) keywords.

(** The keywords among the tokens, in order. *)
Definition keywords_of (ts : list token) : list string :=
  flat_map (fun t => match t with
                     | TName s => if is_keyword s then [s] else []
                     | _ => []
                     end) ts.

Definition uses_keyword (k : string) (ts : list token) : bool :=
  existsb (String.eqb k) (keywords_of ts).

End PyLex.

(** ** Syntax trees of the code cells *)

Module PyAst.

Import PyLex.

Inductive binop := Add | Sub | Mult | Div.

(** Expressions.  A numeric literal keeps its spelling; a tuple records
    whether it is written between parentheses. *)
Inductive expr :=
| ENum (literal : string)
| EStr (s : string)
| EName (x : string)
| EAttr (e : expr) (attr : string)
| ESubscript (e : expr) (index : expr)
| ECall (func : expr) (args : list expr) (kwargs : list (string * expr))
| ETuple (parens : bool) (elts : list expr)
| EBinOp (op : binop) (left right : expr).

(** Simple statements: the two import forms, assignment to one target and
    the expression statement. *)
Inductive stmt :=
| SImport (module : list string) (asname : option string)
| SImportFrom (module : list string) (names : list (string * option string))
| SAssign (target : expr) (value : expr)
| SExpr (e : expr).

Definition op_char (op : binop) : ascii :=
  match op with Add => "+" | Sub => "-" | Mult => "*" | Div => "/" end%char.

Definition precedence (op : binop) : nat :=
  match op with Add | Sub => 1 | Mult | Div => 2 end.

Fixpoint commas (tss : list (list token)) : list token :=
  match tss with
  | [] => []
  | [ts] => ts
  | ts :: tss' => ts ++ TOp "," :: commas tss'
  end.

Definition parenthesised (ts : list token) : list token :=
  TOp "(" :: ts ++ [TOp ")"].

(** An expression that must be put between parentheses when it is the
    object of an attribute, a subscript or a call. *)
Definition is_compound (e : expr) : bool :=
  match e with
  | EBinOp _ _ _ | ETuple false _ => true
  | _ => false
  end.

(** Whether an operand of [op] needs parentheses: a bare tuple always, a
    binary operation when it binds less tightly, and on the right also
    when it binds equally (the operators associate to the left). *)
Definition operand_needs_parens (op : binop) (right_side : bool) (e : expr) : bool :=
  match e with
  | ETuple false _ => true
  | EBinOp op' _ _ =>
      if right_side then Nat.leb (precedence op') (precedence op)
      else Nat.ltb (precedence op') (precedence op)
  | _ => false
  end.

Definition wrap (b : bool) (ts : list token) : list token :=
  if b then parenthesised ts else ts.

(** The tokens an expression is written with. *)
Fixpoint expr_tokens (e : expr) : list token :=
  match e with
  | ENum l => [TNum l]
  | EStr s => [TStr s]
  | EName x => [TName x]
  | EAttr e' a =>
      wrap (is_compound e') (expr_tokens e') ++ [TOp "."; TName a]
  | ESubscript e' i =>
      wrap (is_compound e') (expr_tokens e') ++ TOp "[" :: expr_tokens i ++ [TOp "]"]
  | ECall f args kwargs =>
      wrap (is_compound f) (expr_tokens f)
      ++ parenthesised
           (commas (map expr_tokens args
                    ++ map (fun kw => TName (fst kw) :: TOp "=" :: expr_tokens (snd kw)) kwargs))
  | ETuple parens elts =>
      wrap parens
        (match elts with
         | [e'] => expr_tokens e' ++ [TOp ","]
         | _ => commas (map expr_tokens elts)
         end)
  | EBinOp op l r =>
      wrap (operand_needs_parens op false l) (expr_tokens l)
      ++ TOp (op_char op)
      :: wrap (operand_needs_parens op true r) (expr_tokens r)
  end.

Fixpoint dotted (names : list string) : list token :=
  match names with
  | [] => []
  | [n] => [TName n]
  | n :: names' => TName n :: TOp "." :: dotted names'
  end.

Definition alias_tokens (asname : option string) : list token :=
  match asname with
  | Some a => [TName "as"; TName a]
  | None => []
  end.

(** The tokens of a statement, its end of line included. *)
Definition stmt_tokens (s : stmt) : list token :=
  match s with
  | SImport m a => TName "import" :: dotted m ++ alias_tokens a
  | SImportFrom m names =>
      TName "from" :: dotted m ++ TName "import"
      :: commas (map (fun n => TName (fst n) :: alias_tokens (snd n)) names)
  | SAssign t v => expr_tokens t ++ TOp "=" :: expr_tokens v
  | SExpr e => expr_tokens e
  end ++ [TNewline].

Definition cell_tokens (body : list stmt) : list token := flat_map stmt_tokens body.

End PyAst.

Import PyAst.

(** The statements of the ten code cells. *)

Definition cell_imports : list stmt := [
  SImportFrom ["gammaALPs"; "core"] [("Source", None); ("ALP", None); ("ModuleList", None)];
  SImportFrom ["gammaALPs"; "base"; "transfer"] [("EminGeV", None); ("EmaxGeV", None)];
  SImport ["numpy"] (Some "np");
  SImport ["matplotlib"; "pyplot"] (Some "plt");
  SImportFrom ["astropy"] [("constants", Some "c")] ].

Definition cell_alp : list stmt := [
  SAssign (ETuple false [EName "m"; EName "g"]) (ETuple false [ENum "10."; ENum "3."]);
  SAssign (EName "alp") (ECall (EName "ALP") [EName "m"; EName "g"] []) ].

Definition cell_energies : list stmt := [
  SAssign (EName "EGeV")
    (ECall (EAttr (EName "np") "logspace") [ENum "0."; ENum "8."; ENum "1000"] []) ].

Definition cell_pin : list stmt := [
  SAssign (EName "pin")
    (ECall (EAttr (EName "np") "diag") [ETuple true [ENum "1."; ENum "0."; ENum "0."]] []) ].

Definition cell_source : list stmt := [
  SAssign (EName "src")
    (ECall (EName "Source") [] [("z", ENum "0."); ("l", ENum "0."); ("b", ENum "0.")]) ].

Definition cell_module_list : list stmt := [
  SAssign (EName "ml")
    (ECall (EName "ModuleList") [EName "alp"; EName "src"]
       [("pin", EName "pin"); ("EGeV", EName "EGeV"); ("seed", ENum "0")]) ].

Definition cell_add_propagation : list stmt := [
  SExpr (ECall (EAttr (EName "ml") "add_propagation") []
    [("environ", EStr "ICMCell"); ("order", ENum "0"); ("B0", ENum "1.");
     ("L0", ENum "10."); ("nsim", ENum "1"); ("n0", ENum "1e-3");
     ("r_abell", ENum "10.1"); ("beta", ENum "0."); ("eta", ENum "0.")]) ].

(** [ml.modules[0]], the one propagation module. *)
Definition module0 : expr := ESubscript (EAttr (EName "ml") "modules") (ENum "0").

Definition psin_override : stmt :=
  SAssign (EAttr module0 "psin")
    (EBinOp Div
       (EBinOp Mult (ECall (EAttr (EName "np") "ones_like") [EAttr module0 "psin"] [])
                    (EAttr (EName "np") "pi"))
       (ENum "2.")).

Definition cell_psin : list stmt := [ psin_override ].

Definition run_call : expr := ECall (EAttr (EName "ml") "run") [] [].

Definition run_stmt : stmt :=
  SAssign (ETuple false [EName "px"; EName "py"; EName "pa"]) run_call.

Definition print_stmt : stmt :=
  SExpr (ECall (EName "print") [EAttr (EName "pa") "shape"] []).

Definition cell_run : list stmt := [ run_stmt; print_stmt ].

Definition cell_plot : list stmt := [
  SExpr (ECall (EAttr (EName "plt") "semilogx")
           [EName "EGeV"; ESubscript (EName "pa") (ENum "0")] [("lw", ENum "2")]);
  SExpr (ECall (EAttr (EName "plt") "axvline")
           [ECall (EName "EminGeV") []
              [("m_neV", EAttr (EAttr (EName "ml") "alp") "m");
               ("g11", EAttr (EAttr (EName "ml") "alp") "g");
               ("BmuG", EAttr module0 "B");
               ("n_cm3", EAttr module0 "nel")]]
           [("lw", ENum "1."); ("ls", EStr "--"); ("color", EStr "k")]);
  SExpr (ECall (EAttr (EName "plt") "axvline")
           [ECall (EName "EmaxGeV") []
              [("g11", EAttr (EAttr (EName "ml") "alp") "g");
               ("BmuG", EAttr module0 "B")]]
           [("lw", ENum "1."); ("ls", EStr "-."); ("color", EStr "k")]);
  SExpr (ECall (EAttr (EName "plt") "xlabel") [EStr "Energy (GeV)"] []);
  SExpr (ECall (EAttr (EName "plt") "ylabel") [EStr "$P_{a\gamma}$"] []) ].

(** The program of the notebook: one list of statements per code cell. *)
Definition program : list (list stmt) := [
  cell_imports; cell_alp; cell_energies; cell_pin; cell_source;
  cell_module_list; cell_add_propagation; cell_psin; cell_run; cell_plot ].

(** ** numpy arrays and the numpy operations of the cells *)

Module Numpy.

Inductive dtype := Float64 | Int64.

Inductive adata :=
| F64s (xs : list spec_float)
| I64s (xs : list Z).

(** An array: its shape and its elements in row-major order. *)
Record ndarray := NDArray { shape : list nat; data : adata }.

Definition dtype_of (a : ndarray) : dtype :=
  match data a with F64s _ => Float64 | I64s _ => Int64 end.

Definition count (d : adata) : nat :=
  match d with F64s xs => length xs | I64s xs => length xs end.

(** Number of elements of an array of the given shape. *)
Definition size (sh : list nat) : nat := fold_right Nat.mul 1 sh.

Definition well_formed (a : ndarray) : Prop := count (data a) = size (shape a).

(** [numpy.pi], the binary64 nearest to 3.141592653589793. *)
Definition pi : spec_float := S754_finite false 7074237752028440 (-51).

(** [numpy.linspace(start, stop, num)] with its defaults: [num] samples,
    the last one [stop] itself; sample [i] is [i * step + start] with
    [step = (stop - start) / (num - 1)], or [i / (num - 1) * (stop - start)
    + start] when the step underflows to zero. *)
Definition linspace (start stop : spec_float) (num : nat) : list spec_float :=
  let delta := F64.sub stop start in
  match num with
  | O => []
  | S O => [F64.add (F64.mul F64.zero delta) start]
  | S n =>
      let d := F64.of_Z (Z.of_nat n) in
      let step := F64.div delta d in
      let sample (i : nat) :=
        let y := F64.of_Z (Z.of_nat i) in
        if SFeqb step F64.zero
        then F64.add (F64.mul (F64.div y d) delta) start
        else F64.add (F64.mul y step) start in
      map sample (seq 0 n) ++ [stop]
  end.

(** [numpy.logspace(start, stop, num)]: base 10 raised to the samples of
    [linspace]; [power] is numpy's float64 power function. *)
Definition logspace (power : spec_float -> spec_float -> spec_float)
    (start stop : spec_float) (num : nat) : ndarray :=
  NDArray [num] (F64s (map (power F64.ten) (linspace start stop num))).

(** Row [i] of the square matrix that has [xs] on its diagonal. *)
Definition diag_row {A} (zero : A) (xs : list A) (i : nat) : list A :=
  imap (fun j x => if Nat.eqb i j then x else zero) xs.

Definition diag_matrix {A} (zero : A) (xs : list A) : list A :=
  flat_map (diag_row zero xs) (seq 0 (length xs)).

(** The diagonal of a matrix with [cols] columns: elements [i * cols + i]. *)
Definition diagonal {A} (rows cols : nat) (xs : list A) : list A :=
  omap (fun i => xs !! (i * cols + i)) (seq 0 (Nat.min rows cols)).

(** [numpy.diag(v)]: for a 1-D array the 2-D array with [v] on the
    diagonal and zeros elsewhere, for a 2-D array its diagonal. *)
Definition diag (a : ndarray) : option ndarray :=
  match shape a, data a with
  | [n], F64s xs => Some (NDArray [n; n] (F64s (diag_matrix F64.zero xs)))
  | [n], I64s xs => Some (NDArray [n; n] (I64s (diag_matrix 0%Z xs)))
  | [r; c], F64s xs => Some (NDArray [Nat.min r c] (F64s (diagonal r c xs)))
  | [r; c], I64s xs => Some (NDArray [Nat.min r c] (I64s (diagonal r c xs)))
  | _, _ => None
  end.

(** [numpy.ones_like(a)]: ones, with the shape and the dtype of [a]. *)
Definition ones_like (a : ndarray) : ndarray :=
  NDArray (shape a)
    match data a with
    | F64s xs => F64s (map (fun _ => F64.one) xs)
    | I64s xs => I64s (map (fun _ => 1%Z) xs)
    end.

(** The elements as float64, as numpy converts an integer array that
    meets a Python float. *)
Definition as_floats (d : adata) : list spec_float :=
  match d with
  | F64s xs => xs
  | I64s zs => map F64.of_Z zs
  end.

(** [a op x] and [x op a] for an array and a Python float: elementwise,
    and float64 whatever the dtype of [a]. *)
Definition map_floats (f : spec_float -> spec_float) (a : ndarray) : ndarray :=
  NDArray (shape a) (F64s (map f (as_floats (data a)))).

(** [a[i]] for [0 <= i]: a scalar of a 1-D array, else the sub-array. *)
Definition slice {A} (sh : list nat) (i : nat) (xs : list A) : list A :=
  take (size sh) (drop (i * size sh) xs).

Definition row (a : ndarray) (i : nat) : option ndarray :=
  match shape a with
  | n :: sh =>
      if Nat.ltb i n then
        Some (NDArray sh match data a with
                         | F64s xs => F64s (slice sh i xs)
                         | I64s xs => I64s (slice sh i xs)
                         end)
      else None
  | [] => None
  end.

(** Element [(i, j)] of a float64 matrix. *)
Definition get2 (a : ndarray) (i j : nat) : option spec_float :=
  match shape a, data a with
  | [r; c], F64s xs => if Nat.ltb i r && Nat.ltb j c then xs !! (i * c + j) else None
  | _, _ => None
  end.

Definition fsum (xs : list spec_float) : spec_float := fold_left F64.add xs F64.zero.

(** [a @ b] for two float64 matrices: entry [(i, j)] is the sum over [k]
    of [a[i,k] * b[k,j]]. *)
Definition matmul (a b : ndarray) : option ndarray :=
  match shape a, shape b with
  | [n; m], [m'; p] =>
      if Nat.eqb m m' then
        entries ← mapM (fun ij : nat * nat =>
                     terms ← mapM (fun k => x ← get2 a ij.1 k; y ← get2 b k ij.2;
                                            Some (F64.mul x y)) (seq 0 m);
                     Some (fsum terms))
                   (i ← seq 0 n; j ← seq 0 p; [(i, j)]);
        Some (NDArray [n; p] (F64s entries))
      else None
  | _, _ => None
  end.




(** [numpy.trace(a)] of a float64 matrix. *)
Definition trace (a : ndarray) : option spec_float :=
  match shape a with
  | [r; c] => terms ← mapM (fun i => get2 a i i) (seq 0 (Nat.min r c)); Some (fsum terms)
  | _ => None
  end.

End Numpy.

(** ** Values, objects and the state of a run *)

Module Py.

Import Numpy.

Inductive value :=
| VNone
| VInt (z : Z)
| VFloat (f : spec_float)
| VStr (s : string)
| VTuple (vs : list value)
| VList (vs : list value)
| VArray (a : ndarray)
| VRef (l : nat)                          (* an object of the heap *)
| VModule (path : list string)            (* an imported module *)
| VGlobal (module : list string) (name : string)   (* a name of a module *)
| VMethod (self : nat) (name : string)    (* a method bound to an object *)
| VBuiltin (name : string).

(** An instance of a library class: its class and its attribute
    dictionary. *)
Record object := Object { cls : string; attrs : gmap string value }.

(** A call of a [matplotlib.pyplot] function, as received. *)
Record drawing := Drawing {
  command : string;
  drawn_args : list value;
  drawn_kwargs : list (string * value)
}.

(** The state of the kernel: the global names, the objects (an object's
    address is its index), the text written to standard output, and the
    drawing commands issued so far. *)
Record state := State {
  env : gmap string value;
  heap : list object;
  stdout : string;
  figure : list drawing
}.

Definition initial : state := State ∅ [] "" [].

Definition bind (x : string) (v : value) (σ : state) : state :=
  State (<[x := v]> (env σ)) (heap σ) (stdout σ) (figure σ).

Definition with_heap (h : list object) (σ : state) : state :=
  State (env σ) h (stdout σ) (figure σ).

Definition write (s : string) (σ : state) : state :=
  State (env σ) (heap σ) (stdout σ +:+ s) (figure σ).

Definition draw (d : drawing) (σ : state) : state :=
  State (env σ) (heap σ) (stdout σ) (figure σ ++ [d]).

Definition set_attr (a : string) (v : value) (o : object) : object :=
  Object (cls o) (<[a := v]> (attrs o)).

(** Allocation: the new object takes the next free address. *)
Definition alloc (o : object) (h : list object) : value * list object :=
  (VRef (length h), h ++ [o]).

(** *** The external libraries *)

(** numpy's float64 power function, which [logspace] applies; it is
    computed by the platform's mathematical library. *)
Class Libm := { power : spec_float -> spec_float -> spec_float }.

(** The installed packages, gammaALPs above all, as the notebook uses
    them: functions and classes called by qualified name and methods called
    on objects; a call reads and updates the heap and returns a value, or
    raises ([None]).  Storing into an attribute of an object is the
    business of the object's class (a property setter, [__setattr__]): it
    updates the heap or raises.  Importing a module runs the module's code,
    which updates the heap, or raises when the module is not installed;
    [module_has] tells whether a module defines a name, which [from m
    import n] requires. *)
Class Library := {
  call_function :
    list string -> string -> list value -> list (string * value) ->
    list object -> option (value * list object);
  call_method :
    nat -> string -> list value -> list (string * value) ->
    list object -> option (value * list object);
  store_attribute :
    nat -> string -> value -> list object -> option (list object);
  import_module : list string -> list object -> option (list object);
  module_has : list string -> string -> bool
}.

(** *** Numeric literals *)

Fixpoint digits_value (acc : Z) (s : string) : option Z :=
  match s with
  | EmptyString => Some acc
  | String c s' =>
      if PyLex.is_digit c
      then digits_value (10 * acc + Z.of_nat (PyLex.code c - 48)) s'
      else None
  end.

(** The text before the first character that satisfies [p], and the text
    after it if there is one. *)
Fixpoint split_at (p : ascii -> bool) (s : string) : string * option string :=
  match s with
  | EmptyString => (EmptyString, None)
  | String c s' =>
      if p c then (EmptyString, Some s')
      else let '(a, b) := split_at p s' in (String c a, b)
  end.

Definition signed_digits (s : string) : option Z :=
  match s with
  | String "-" s' => Z.opp <$> digits_value 0 s'
  | String "+" s' => digits_value 0 s'
  | _ => digits_value 0 s
  end.

(** The value of a decimal literal: an [int] when it has neither a point
    nor an exponent, else the [float] nearest to it. *)
Definition literal (s : string) : option value :=
  let '(mantissa, exponent) := split_at PyLex.is_exponent_mark s in
  let '(whole, fraction) := split_at (Ascii.eqb ".") mantissa in
  match whole with
  | EmptyString => None
  | _ =>
      w ← digits_value 0 whole;
      match fraction, exponent with
      | None, None => Some (VInt w)
      | _, _ =>
          let frac := default EmptyString fraction in
          m ← digits_value w frac;
          e ← match exponent with
              | Some (String c t) => signed_digits (String c t)
              | Some EmptyString => None
              | None => Some 0%Z
              end;
          VFloat <$> F64.of_decimal m (e - Z.of_nat (String.length frac))
      end
  end.

(** *** Conversions *)

Definition as_float (v : value) : option spec_float :=
  match v with
  | VFloat f => Some f
  | VInt z => Some (F64.of_Z z)
  | _ => None
  end.

Definition as_int (v : value) : option Z :=
  match v with VInt z => Some z | _ => None end.

(** [numpy.asarray] of a sequence of numbers: an integer array when all
    are [int], else a float64 array. *)
Definition asarray (vs : list value) : option ndarray :=
  match mapM as_int vs with
  | Some zs => Some (NDArray [length vs] (I64s zs))
  | None => fs ← mapM as_float vs; Some (NDArray [length vs] (F64s fs))
  end.

Definition array_like (v : value) : option ndarray :=
  match v with
  | VArray a => Some a
  | VTuple vs | VList vs => asarray vs
  | _ => None
  end.

(** Position [i] of a sequence of [n] items; a negative index counts from
    the end. *)
Definition position (n : nat) (i : Z) : option nat :=
  if (0 <=? i)%Z then (if (i <? Z.of_nat n)%Z then Some (Z.to_nat i) else None)
  else if (0 <=? Z.of_nat n + i)%Z then Some (Z.to_nat (Z.of_nat n + i)) else None.

Definition scalar_at (d : adata) (i : nat) : option value :=
  match d with
  | F64s xs => VFloat <$> xs !! i
  | I64s xs => VInt <$> xs !! i
  end.

(** [a[i]]. *)
Definition array_item (a : ndarray) (i : Z) : option value :=
  match shape a with
  | [n] => k ← position n i; scalar_at (data a) k
  | n :: _ => k ← position n i; VArray <$> row a k
  | [] => None
  end.

(** The items a value yields when it is iterated. *)
Definition items (v : value) : option (list value) :=
  match v with
  | VTuple vs | VList vs => Some vs
  | VArray a =>
      match shape a with
      | n :: _ => mapM (fun k => array_item a (Z.of_nat k)) (seq 0 n)
      | [] => None
      end
  | _ => None
  end.

(** *** Operations of the language *)

Definition getattr (h : list object) (v : value) (a : string) : option value :=
  match v with
  | VModule m =>
      if bool_decide (m = ["numpy"] ∧ a = "pi") then Some (VFloat pi)
      else Some (VGlobal m a)
  | VGlobal m n => Some (VGlobal (m ++ [n]) a)
  | VArray arr =>
      if String.eqb a "shape" then Some (VTuple (map (fun n => VInt (Z.of_nat n)) (shape arr)))
      else None
  | VRef l =>
      o ← h !! l;
      match attrs o !! a with
      | Some x => Some x
      | None => Some (VMethod l a)
      end
  | _ => None
  end.

Definition getitem (v : value) (i : value) : option value :=
  match v, i with
  | VTuple vs, VInt z | VList vs, VInt z => k ← position (length vs) z; vs !! k
  | VArray a, VInt z => array_item a z
  | _, _ => None
  end.

Definition float_op (op : binop) : spec_float -> spec_float -> spec_float :=
  match op with
  | Add => F64.add
  | Sub => F64.sub
  | Mult => F64.mul
  | Div => F64.div
  end.

(** Binary arithmetic on numbers, and between an array and a number. Only
    the cases whose result is a float or a float64 array are given. *)
Definition binop_value (op : binop) (a b : value) : option value :=
  match a, b with
  | VFloat x, VFloat y => Some (VFloat (float_op op x y))
  | VFloat x, VInt z => Some (VFloat (float_op op x (F64.of_Z z)))
  | VInt z, VFloat y => Some (VFloat (float_op op (F64.of_Z z) y))
  | VArray arr, VFloat y => Some (VArray (map_floats (fun x => float_op op x y) arr))
  | VFloat x, VArray arr => Some (VArray (map_floats (fun y => float_op op x y) arr))
  | _, _ => None
  end.

Fixpoint join (sep : string) (ss : list string) : string :=
  match ss with
  | [] => ""
  | [s] => s
  | s :: ss' => s +:+ sep +:+ join sep ss'
  end.

(** [repr(v)] for [None], integers and tuples of them. *)
Fixpoint repr (v : value) : option string :=
  match v with
  | VNone => Some "None"
  | VInt z => Some (NilZero.string_of_int (Z.to_int z))
  | VTuple vs =>
      rs ← mapM repr vs;
      match rs with
      | [r] => Some ("(" +:+ r +:+ ",)")
      | _ => Some ("(" +:+ join ", " rs +:+ ")")
      end
  | _ => None
  end.

(** [str(v)]: the text itself for a string, else [repr(v)]. *)
Definition str (v : value) : option string :=
  match v with
  | VStr s => Some s
  | _ => repr v
  end.

(** [print] of its arguments: their [str], separated by blanks, and a
    line feed. *)
Definition print_line (args : list value) : option string :=
  ss ← mapM str args; Some (join " " ss +:+ nl).

(** The numpy functions of the notebook, called without keywords. *)
Definition call_numpy `{Libm} (f : string) (args : list value) : option value :=
  match args with
  | [start; stop; VInt num] =>
      if String.eqb f "logspace" then
        a ← as_float start; b ← as_float stop;
        if (0 <=? num)%Z then Some (VArray (logspace power a b (Z.to_nat num))) else None
      else None
  | [v] =>
      if String.eqb f "diag" then a ← array_like v; VArray <$> diag a
      else if String.eqb f "ones_like" then a ← array_like v; Some (VArray (ones_like a))
      else None
  | _ => None
  end.

Definition builtins : list string := ["print"].

Definition lookup_name (x : string) (σ : state) : option value :=
  match env σ !! x with
  | Some v => Some v
  | None => if existsb (String.eqb x) builtins then Some (VBuiltin x) else None
  end.

Section Interpreter.

Context {M : Libm} {L : Library}.

(** A call: [print] writes to standard output, the numpy functions
    compute, a pyplot function is recorded as a drawing command, and every
    other function or method is the library's. *)
Definition call (f : value) (args : list value) (kwargs : list (string * value))
    (σ : state) : option (value * state) :=
  match f with
  | VBuiltin name =>
      if String.eqb name "print" then
        match kwargs with
        | [] => line ← print_line args; Some (VNone, write line σ)
        | _ => None
        end
      else None
  | VGlobal m name =>
      if bool_decide (m = ["numpy"]) then
        match kwargs with
        | [] => v ← call_numpy name args; Some (v, σ)
        | _ => None
        end
      else if bool_decide (m = ["matplotlib"; "pyplot"]) then
        Some (VNone, draw (Drawing name args kwargs) σ)
      else
        '(v, h) ← call_function m name args kwargs (heap σ); Some (v, with_heap h σ)
  | VMethod self name =>
      '(v, h) ← call_method self name args kwargs (heap σ); Some (v, with_heap h σ)
  | _ => None
  end.

(** Evaluation of an expression, left to right. *)
Fixpoint eval (e : expr) (σ : state) {struct e} : option (value * state) :=
  match e with
  | ENum l => v ← literal l; Some (v, σ)
  | EStr s => Some (VStr s, σ)
  | EName x => v ← lookup_name x σ; Some (v, σ)
  | EAttr e' a =>
      '(v, σ1) ← eval e' σ; r ← getattr (heap σ1) v a; Some (r, σ1)
  | ESubscript e' i =>
      '(v, σ1) ← eval e' σ; '(k, σ2) ← eval i σ1; r ← getitem v k; Some (r, σ2)
  | ECall f args kwargs =>
      '(fv, σ1) ← eval f σ;
      '(avs, σ2) ←
        (fix eval_args (es : list expr) (σ : state) : option (list value * state) :=
           match es with
           | [] => Some ([], σ)
           | e' :: es' =>
               '(v, σ') ← eval e' σ; '(vs, σ'') ← eval_args es' σ'; Some (v :: vs, σ'')
           end) args σ1;
      '(kvs, σ3) ←
        (fix eval_kwargs (kws : list (string * expr)) (σ : state)
           : option (list (string * value) * state) :=
           match kws with
           | [] => Some ([], σ)
           | (k, e') :: kws' =>
               '(v, σ') ← eval e' σ; '(vs, σ'') ← eval_kwargs kws' σ';
               Some ((k, v) :: vs, σ'')
           end) kwargs σ2;
      call fv avs kvs σ3
  | ETuple _ elts =>
      '(vs, σ1) ←
        (fix eval_elts (es : list expr) (σ : state) : option (list value * state) :=
           match es with
           | [] => Some ([], σ)
           | e' :: es' =>
               '(v, σ') ← eval e' σ; '(vs, σ'') ← eval_elts es' σ'; Some (v :: vs, σ'')
           end) elts σ;
      Some (VTuple vs, σ1)
  | EBinOp op l r =>
      '(a, σ1) ← eval l σ; '(b, σ2) ← eval r σ1; v ← binop_value op a b; Some (v, σ2)
  end.

(** Assignment of a value to a target: a name is bound, a tuple of targets
    takes the items of the value, which must be as many, and an attribute
    is stored by the class of the object its base evaluates to. *)
Fixpoint assign (t : expr) (v : value) (σ : state) {struct t} : option state :=
  match t with
  | EName x => Some (bind x v σ)
  | ETuple _ ts =>
      vs ← items v;
      (fix assign_all (ts : list expr) (vs : list value) (σ : state) : option state :=
         match ts, vs with
         | [], [] => Some σ
         | t' :: ts', v' :: vs' => σ' ← assign t' v' σ; assign_all ts' vs' σ'
         | _, _ => None
         end) ts vs σ
  | EAttr e a =>
      '(b, σ1) ← eval e σ;
      match b with
      | VRef l => h ← store_attribute l a v (heap σ1); Some (with_heap h σ1)
      | _ => None
      end
  | _ => None
  end.

Definition import_name (m : list string) (asname : option string) : option string :=
  match asname with
  | Some a => Some a
  | None => head m
  end.

(** Execution of a statement. An import statement first imports the
    module, which raises when it is not installed; then [import a.b as c]
    binds [c] to the module [a.b], [import a.b] binds [a] to the module
    [a], and [from m import n as c] binds [c] to the name [n] of [m], and
    raises when [m] does not define [n]. *)
Definition exec (s : stmt) (σ : state) : option state :=
  match s with
  | SImport m asname =>
      x ← import_name m asname;
      h ← import_module m (heap σ);
      Some (bind x (VModule (match asname with Some _ => m | None => take 1 m end))
              (with_heap h σ))
  | SImportFrom m names =>
      h ← import_module m (heap σ);
      if forallb (fun n : string * option string => module_has m n.1) names
      then Some (fold_left (fun σ' n => bind (default n.1 n.2) (VGlobal m n.1) σ') names
                   (with_heap h σ))
      else None
  | SAssign t e => '(v, σ1) ← eval e σ; assign t v σ1
  | SExpr e => '(_, σ1) ← eval e σ; Some σ1
  end.

Fixpoint exec_cell (body : list stmt) (σ : state) : option state :=
  match body with
  | [] => Some σ
  | s :: body' => σ' ← exec s σ; exec_cell body' σ'
  end.

(** Running cells in order. *)
Fixpoint run_cells (cells : list (list stmt)) (σ : state) : option state :=
  match cells with
  | [] => Some σ
  | c :: cells' => σ' ← exec_cell c σ; run_cells cells' σ'
  end.

End Interpreter.

End Py.

(** ** The gammaALPs library, as far as the specification describes it *)

Module GammaALPs.

Import Numpy Py.

(** Modelled from the spec: the numerical core of the library, which is
    not in the source at hand and which the specification leaves out of
    scope ("the differential-equation / transfer-matrix solver",
    "magnetic-field-cell generation"): the field of a propagation module
    (its arrays [B], [nel] and [psin]), the probability of each of the three
    final states for each field realization and each energy, and the two
    critical energies are whatever functions of their inputs. *)
Class Solver := {
  field_B : list object -> nat -> list (string * value) -> ndarray;
  field_nel : list object -> nat -> list (string * value) -> ndarray;
  field_psin : list object -> nat -> list (string * value) -> ndarray;
  probability : nat -> list object -> nat -> nat -> nat -> spec_float;
  critical_energy : string -> list (string * value) -> spec_float
}.

Definition kwarg (k : string) (kwargs : list (string * value)) : option value :=
  snd <$> find (fun kv => String.eqb kv.1 k) kwargs.

Definition core : list string := ["gammaALPs"; "core"].
Definition transfer : list string := ["gammaALPs"; "base"; "transfer"].

(** Modelled from the spec: the class [ALP] of [gammaALPs.core], which is
    not in the source at hand; the specification calls its instances "a
    particle-parameter pair": an object that holds the mass [m] and the
    coupling [g] it is built from. *)
Definition new_ALP (args : list value) (kwargs : list (string * value))
    (h : list object) : option (value * list object) :=
  match args, kwargs with
  | [m; g], [] => Some (alloc (Object "ALP" (list_to_map [("m", m); ("g", g)])) h)
  | _, _ => None
  end.

(** Modelled from the spec: the class [Source] of [gammaALPs.core], "a
    source-geometry triple": an object that holds the three keyword
    arguments [z], [l] and [b]. *)
Definition new_Source (args : list value) (kwargs : list (string * value))
    (h : list object) : option (value * list object) :=
  match args with
  | [] =>
      z ← kwarg "z" kwargs; l ← kwarg "l" kwargs; b ← kwarg "b" kwargs;
      if Nat.eqb (length kwargs) 3
      then Some (alloc (Object "Source" (list_to_map [("z", z); ("l", l); ("b", b)])) h)
      else None
  | _ => None
  end.

(** Modelled from the spec: the class [ModuleList] of [gammaALPs.core]: an
    object that holds the particle parameters, the source, the initial
    polarization matrix, the energy array, the seed, and "a list of
    propagation modules", empty at first. *)
Definition new_ModuleList (args : list value) (kwargs : list (string * value))
    (h : list object) : option (value * list object) :=
  match args with
  | [alp; src] =>
      pin ← kwarg "pin" kwargs; egev ← kwarg "EGeV" kwargs; seed ← kwarg "seed" kwargs;
      match egev with
      | VArray _ =>
          Some (alloc (Object "ModuleList"
                         (list_to_map [("alp", alp); ("source", src); ("pin", pin);
                                       ("EGeV", egev); ("seed", seed);
                                       ("modules", VList [])])) h)
      | _ => None
      end
  | _ => None
  end.

Definition insert_at {A} (i : nat) (x : A) (l : list A) : list A :=
  take i l ++ x :: drop i l.

(** Modelled from the spec: the method [ModuleList.add_propagation]: it
    builds a propagation module, "a unit representing one region of
    magnetized plasma", with [nsim] realizations of the field and the
    attributes [B], [nel] and [psin] that the notebook reads, and puts it
    at position [order] of the list of modules.  Only a position counted
    from the front and at least one realization are modelled.  The module
    holds the angle twice, as [psin] and as [psi]: see [store]. *)
Definition add_propagation `{Solver} (self : nat) (args : list value)
    (kwargs : list (string * value)) (h : list object) : option (value * list object) :=
  o ← h !! self;
  environ ← kwarg "environ" kwargs; order ← kwarg "order" kwargs; nsim ← kwarg "nsim" kwargs;
  match args, environ, order, nsim, attrs o !! "modules" with
  | [], VStr name, VInt k, VInt n, Some (VList ms) =>
      if ((0 <=? k) && (0 <? n))%Z then
        let module :=
          Object name (list_to_map [("nsim", VInt n);
                                    ("B", VArray (field_B h self kwargs));
                                    ("nel", VArray (field_nel h self kwargs));
                                    ("psin", VArray (field_psin h self kwargs));
                                    ("psi", VArray (field_psin h self kwargs))]) in
        let '(m, h1) := alloc module h in
        Some (VNone, <[self := set_attr "modules" (VList (insert_at (Z.to_nat k) m ms)) o]> h1)
      else None
  | _, _, _, _, _ => None
  end.

(** Modelled from the spec: the number of field realizations of a module,
    the [nsim] it was added with. *)
Definition realizations (h : list object) (m : value) : option nat :=
  match m with
  | VRef l =>
      o ← h !! l;
      match attrs o !! "nsim" with
      | Some (VInt n) => Some (Z.to_nat n)
      | _ => None
      end
  | _ => None
  end.

(** The array of [rows] by [cols] numbers [f i j], row after row. *)
Definition tabulate (rows cols : nat) (f : nat -> nat -> spec_float) : ndarray :=
  NDArray [rows; cols]
    (F64s (flat_map (fun i => map (f i) (seq 0 cols)) (seq 0 rows))).

(** Modelled from the spec: the method [ModuleList.run], the "physics
    solver": its output is "three probability arrays", one per final state,
    each of shape (number of field realizations, number of energies), the
    shape the notebook records; the realizations are those of the modules
    of the list, the energies those of the array [EGeV]. *)
Definition run `{Solver} (self : nat) (args : list value)
    (kwargs : list (string * value)) (h : list object) : option (value * list object) :=
  o ← h !! self;
  match args, kwargs, attrs o !! "EGeV", attrs o !! "modules" with
  | [], [], Some (VArray egev), Some (VList (m :: ms)) =>
      ns ← mapM (realizations h) (m :: ms);
      let result (state : nat) :=
        VArray (tabulate (foldr Nat.max 0 ns) (size (shape egev)) (probability state h self)) in
      Some (VTuple [result 0; result 1; result 2], h)
  | _, _, _, _ => None
  end.

(** Modelled from the spec: the functions [EminGeV] and [EmaxGeV] of
    [gammaALPs.base.transfer], the critical energies drawn on the plot:
    each returns one float and leaves the objects alone. *)
Definition energy_bound `{Solver} (name : string) (args : list value)
    (kwargs : list (string * value)) (h : list object) : option (value * list object) :=
  match args with
  | [] => Some (VFloat (critical_energy name kwargs), h)
  | _ => None
  end.

(** Modelled from the spec: storing into an attribute of an object of the
    library.  The classes are not in the source at hand, and the
    specification leaves the attributes of their objects to the library
    ("defines none of their invariants, lifecycles, or ownership").  The
    notebook's own text says what its one store is for: "we explicitly set
    the angle $\psi$ between the transversal magnetic field and the $x$
    direction", by assigning [psin].  So the model keeps a value stored as
    [psin] under [psin] and as the angle [psi]; any other attribute is kept
    under its own name.  What else the library derives from the angle is
    not modelled. *)
Definition store (l : nat) (a : string) (v : value) (h : list object)
    : option (list object) :=
  o ← h !! l;
  if String.eqb a "psin"
  then Some (<[l := set_attr "psi" v (set_attr "psin" v o)]> h)
  else Some (<[l := set_attr a v o]> h).

(** The modules the notebook imports, and the names it imports from
    them. *)
Definition installed : list (list string * list string) :=
  [(core, ["Source"; "ALP"; "ModuleList"]);
   (transfer, ["EminGeV"; "EmaxGeV"]);
   (["numpy"], []);
   (["matplotlib"; "pyplot"], []);
   (["astropy"], ["constants"])].

Definition names_of (m : list string) : option (list string) :=
  snd <$> find (fun mn : list string * list string => bool_decide (mn.1 = m)) installed.

(** Modelled from the spec: the part of gammaALPs that the notebook calls.
    The notebook "imports a pre-existing physics library": the modules it
    imports are installed and define the names it imports, and importing
    them leaves the objects alone. *)
Global Instance model `{Solver} : Library := {|
  call_function m name args kwargs h :=
    if bool_decide (m = core) then
      if String.eqb name "ALP" then new_ALP args kwargs h
      else if String.eqb name "Source" then new_Source args kwargs h
      else if String.eqb name "ModuleList" then new_ModuleList args kwargs h
      else None
    else if bool_decide (m = transfer) then
      if String.eqb name "EminGeV" || String.eqb name "EmaxGeV"
      then energy_bound name args kwargs h
      else None
    else None;
  call_method self name args kwargs h :=
    o ← h !! self;
    if String.eqb (cls o) "ModuleList" then
      if String.eqb name "add_propagation" then add_propagation self args kwargs h
      else if String.eqb name "run" then run self args kwargs h
      else None
    else None;
  store_attribute := store;
  import_module m h := match names_of m with Some _ => Some h | None => None end;
  module_has m n :=
    match names_of m with
    | Some ns => existsb (String.eqb n) ns
    | None => false
    end
|}.

(** A solver and a power function with no content, to run the notebook on
    concrete data: every field array is a single number, every probability
    is zero, every power is one. *)
Definition blank_solver : Solver := {|
  field_B _ _ _ := NDArray [1] (F64s [F64.one]);
  field_nel _ _ _ := NDArray [1] (F64s [F64.one]);
  field_psin _ _ _ := NDArray [1; 1] (F64s [F64.zero]);
  probability _ _ _ _ _ := F64.zero;
  critical_energy _ _ := F64.one
|}.

Definition flat_power : Libm := {| power _ _ := F64.one |}.

End GammaALPs.

(** ** Static analyses of the program *)

Module Analysis.

Import PyLex PyAst.

(** The expressions that occur in an expression, itself first. *)
Fixpoint subexprs (e : expr) : list expr :=
  e :: match e with
       | ENum _ | EStr _ | EName _ => []
       | EAttr e' _ => subexprs e'
       | ESubscript e' i => subexprs e' ++ subexprs i
       | ECall f args kwargs =>
           subexprs f ++ flat_map subexprs args
           ++ flat_map (fun kw => subexprs (snd kw)) kwargs
       | ETuple _ elts => flat_map subexprs elts
       | EBinOp _ l r => subexprs l ++ subexprs r
       end.

Definition stmt_exprs (s : stmt) : list expr :=
  match s with
  | SAssign t v => subexprs t ++ subexprs v
  | SExpr e => subexprs e
  | SImport _ _ | SImportFrom _ _ => []
  end.

(** The arguments of every call of the function or class named [f]. *)
Definition calls_to (f : string) (body : list stmt)
    : list (list expr * list (string * expr)) :=
  flat_map (fun s =>
    flat_map (fun e =>
      match e with
      | ECall (EName g) args kwargs => if String.eqb f g then [(args, kwargs)] else []
      | _ => []
      end) (stmt_exprs s)) body.


(** The method calls of a statement whose receiver is a plain name:
    receiver and method. *)
Definition method_calls (s : stmt) : list (string * string) :=
  flat_map (fun e =>
    match e with
    | ECall (EAttr (EName x) a) _ _ => [(x, a)]
    | _ => []
    end) (stmt_exprs s).

(** The positional arguments of every call of the method or module
    function named [m]. *)
Definition method_args (m : string) (body : list stmt) : list (list expr) :=
  flat_map (fun s =>
    flat_map (fun e =>
      match e with
      | ECall (EAttr _ a) args _ => if String.eqb a m then [args] else []
      | _ => []
      end) (stmt_exprs s)) body.

(** The expressions passed for the keyword [k] in the calls of the method
    named [m]. *)
Definition keyword_values (m k : string) (body : list stmt) : list expr :=
  flat_map (fun s =>
    flat_map (fun e =>
      match e with
      | ECall (EAttr _ a) _ kwargs =>
          if String.eqb a m
          then flat_map (fun kw : string * expr =>
                 if String.eqb kw.1 k then [kw.2] else []) kwargs
          else []
      | _ => []
      end) (stmt_exprs s)) body.

Fixpoint target_names (t : expr) : list string :=
  match t with
  | EName x => [x]
  | ETuple _ ts => flat_map target_names ts
  | _ => []
  end.

(** The names a statement binds. *)
Definition bound_names (s : stmt) : list string :=
  match s with
  | SImport m a => match Py.import_name m a with Some x => [x] | None => [] end
  | SImportFrom _ names => map (fun n => default n.1 n.2) names
  | SAssign t _ => target_names t
  | SExpr _ => []
  end.

(** The name at the root of a chain of attributes and subscripts. *)
Fixpoint root (e : expr) : option string :=
  match e with
  | EName x => Some x
  | EAttr e' _ | ESubscript e' _ => root e'
  | _ => None
  end.

(** The name through which an assignment stores into an object: the root
    of an attribute or subscript target. *)
Definition stored_through (s : stmt) : option string :=
  match s with
  | SAssign (EAttr b _) _ | SAssign (ESubscript b _) _ => root b
  | _ => None
  end.

Definition binds (x : string) (body : list stmt) : bool :=
  existsb (fun s => existsb (String.eqb x) (bound_names s)) body.

(** The assignments of cell [j] to an attribute or an item of an object
    whose name an earlier cell [i] bound, as triples [(i, j, statement)].
    Only assignments are counted here; the method calls on such an object
    are [cross_cell_calls]. *)
Definition cross_cell_stores (cells : list (list stmt)) : list (nat * nat * stmt) :=
  flat_map (fun jc : nat * list stmt =>
    flat_map (fun s =>
      match stored_through s with
      | Some x =>
          flat_map (fun ic : nat * list stmt =>
            if binds x ic.2 then [(ic.1, jc.1, s)] else [])
            (take jc.1 (imap pair cells))
      | None => []
      end) jc.2) (imap pair cells).

(** Whether an assignment of the statements binds [x]: the names of the
    objects a cell creates, as opposed to the names it imports. *)
Definition creates (x : string) (body : list stmt) : bool :=
  existsb (fun s =>
    match s with
    | SAssign t _ => existsb (String.eqb x) (target_names t)
    | _ => false
    end) body.

(** The method calls of cell [j] on an object whose name an earlier cell
    [i] created, as [(i, j, receiver, method)]: with the stores, the
    statements through which a later cell can change such an object. *)
Definition cross_cell_calls (cells : list (list stmt)) : list (nat * nat * string * string) :=
  flat_map (fun jc : nat * list stmt =>
    flat_map (fun s =>
      flat_map (fun xm : string * string =>
        flat_map (fun ic : nat * list stmt =>
          if creates xm.1 ic.2 then [(ic.1, jc.1, xm.1, xm.2)] else [])
          (take jc.1 (imap pair cells)))
        (method_calls s)) jc.2) (imap pair cells).

(** The attributes that the statements assign, and the attributes that
    their expressions read. *)
Definition assigned_attributes (body : list stmt) : list string :=
  flat_map (fun s =>
    match s with
    | SAssign (EAttr _ a) _ => [a]
    | _ => []
    end) body.



(** Whether the value a statement binds is the result of a call. *)
Definition bound_by_call (s : stmt) : bool :=
  match s with
  | SAssign _ (ECall _ _ _) => true
  | SAssign _ _ => false
  | SImport _ _ | SImportFrom _ _ | SExpr _ => true
  end.

Definition is_literal (e : expr) : bool :=
  match e with ENum _ | EStr _ => true | _ => false end.

(** The binary operations of a statement: operator and operands. *)
Definition operations (s : stmt) : list (binop * expr * expr) :=
  flat_map (fun e =>
    match e with
    | EBinOp op l r => [(op, l, r)]
    | _ => []
    end) (stmt_exprs s).

(** The modules a cell imports. *)
Definition imported_modules (body : list stmt) : list (list string) :=
  flat_map (fun s =>
    match s with
    | SImport m _ | SImportFrom m _ => [m]
    | _ => []
    end) body.

(** Keywords of definitions, of error handling and control flow, and of
    suspension. *)
Definition definition_keywords : list string := ["def"; "class"; "lambda"].
Definition handling_keywords : list string :=
  ["try"; "except"; "finally"; "raise"; "assert"; "if"; "elif"; "else";
   "while"; "for"; "with"; "is"; "in"; "not"; "and"; "or"].
Definition suspension_keywords : list string := ["async"; "await"; "yield"].
Definition lifecycle_keywords : list string := ["class"; "def"; "assert"; "del"; "with"; "global"; "nonlocal"].

(** The characters of comparison operators. *)
Definition is_comparison (t : token) : bool :=
  match t with
  | TOp c => Ascii.eqb c "<" || Ascii.eqb c ">" || Ascii.eqb c "!"
  | _ => false
  end.

Definition scalar (v : Py.value) : bool :=
  match v with Py.VInt _ | Py.VFloat _ => true | _ => false end.

End Analysis.

(** ** Reference states *)

(** The state after the first [n] code cells, for the modelled library
    with the blank solver. *)
Definition state_after (n : nat) : option Py.state :=
  @Py.run_cells GammaALPs.flat_power (@GammaALPs.model GammaALPs.blank_solver)
    (take n program) Py.initial.

(** The states of that run in which the notebook overrides [psin] and in
    which it calls [ml.run()]. *)
Definition state_before_psin : Py.state := default Py.initial (state_after 7).
Definition state_before_run : Py.state := default Py.initial (state_after 8).

Definition state_after_imports : Py.state := default Py.initial (state_after 1).

(** The state of that run once [px, py, pa = ml.run()] is executed. *)
Definition state_after_run_stmt : Py.state :=
  default Py.initial
    (@Py.exec GammaALPs.flat_power (@GammaALPs.model GammaALPs.blank_solver)
       run_stmt state_before_run).

(** The array [psin] of the propagation module of that run. *)
Definition reference_psin : Numpy.ndarray :=
  Numpy.NDArray [1; 1] (Numpy.F64s [F64.zero]).

(** The shape and the number of elements of a value that is an array. *)
Definition array_shape (v : Py.value) : option (list nat * nat) :=
  match v with
  | Py.VArray a => Some (Numpy.shape a, Numpy.count (Numpy.data a))
  | _ => None
  end.

Definition is_array (v : Py.value) : bool :=
  match v with Py.VArray _ => true | _ => false end.

(** The values of a list of expressions, evaluated left to right. *)
Fixpoint eval_all `{Py.Libm} `{Py.Library} (es : list expr) (σ : Py.state)
    : option (list Py.value * Py.state) :=
  match es with
  | [] => Some ([], σ)
  | e :: es' =>
      '(v, σ1) ← Py.eval e σ; '(vs, σ2) ← eval_all es' σ1; Some (v :: vs, σ2)
  end.

(** The values of keyword arguments, evaluated left to right. *)
Fixpoint eval_keywords `{Py.Libm} `{Py.Library} (kws : list (string * expr)) (σ : Py.state)
    : option (list (string * Py.value) * Py.state) :=
  match kws with
  | [] => Some ([], σ)
  | (k, e) :: kws' =>
      '(v, σ1) ← Py.eval e σ; '(vs, σ2) ← eval_keywords kws' σ1; Some ((k, v) :: vs, σ2)
  end.

(** The claim that no cell changes an object of an earlier cell: no cell
    assigns to an attribute or an item of one, and none calls a method of
    one. *)
Definition no_cross_cell_store (cells : list (list stmt)) : Prop :=
  Analysis.cross_cell_stores cells = [] /\ Analysis.cross_cell_calls cells = [].

(** The claim that every value the notebook binds is the result of a call. *)
Definition every_binding_is_a_call (cells : list (list stmt)) : Prop :=
  forall s, In s (concat cells) -> Analysis.bound_by_call s = true.

(** The value of [np.ones_like(a) * np.pi / 2.]. *)
Definition psin_value (a : Numpy.ndarray) : Numpy.ndarray :=
  Numpy.map_floats (fun x => F64.div x F64.two)
    (Numpy.map_floats (fun x => F64.mul x Numpy.pi) (Numpy.ones_like a)).

(** The value of [np.pi / 2.]. *)
Definition half_pi : spec_float := F64.div Numpy.pi F64.two.

(** The right-hand side of the override,
    [np.ones_like(ml.modules[0].psin) * np.pi / 2.]. *)
Definition psin_rhs : expr :=
  EBinOp Div
    (EBinOp Mult (ECall (EAttr (EName "np") "ones_like") [EAttr module0 "psin"] [])
                 (EAttr (EName "np") "pi"))
    (ENum "2.").






(** The modules that a statement imports, each with the names imported
    from it. *)
Definition imports_of (s : stmt) : list (list string * list string) :=
  match s with
  | SImport m _ => [(m, [])]
  | SImportFrom m names => [(m, map fst names)]
  | _ => []
  end.

(** Importing modules in order: each must import, and define the names
    imported from it. *)
Fixpoint import_all `{Py.Library} (ms : list (list string * list string))
    (h : list Py.object) : option (list Py.object) :=
  match ms with
  | [] => Some h
  | (m, ns) :: rest =>
      h' ← Py.import_module m h;
      if forallb (Py.module_has m) ns then import_all rest h' else None
  end.

(** The objects after the imports of the first cell. *)
Definition imports_heap `{Py.Library} (h : list Py.object) : option (list Py.object) :=
  import_all (flat_map imports_of cell_imports) h.

(** ** The names a cell reads, and the expressions that call nothing *)

Module Flow.

Import Analysis.

(** The names an expression reads. *)
Definition names (e : expr) : list string :=
  flat_map (fun e' => match e' with EName x => [x] | _ => [] end) (subexprs e).

(** The names a statement reads: those of the assigned value or of the
    expression, and those of the object an attribute target stores into. *)
Definition reads (s : stmt) : list string :=
  match s with
  | SAssign t v => names v ++ match t with EAttr b _ => names b | _ => [] end
  | SExpr e => names e
  | SImport _ _ | SImportFrom _ _ => []
  end.

Definition known (x : string) (xs : list string) : bool := existsb (String.eqb x) xs.

(** The names that the statements read before any of them binds them,
    apart from those already defined. *)
Fixpoint undefined_reads (defined : list string) (body : list stmt) : list string :=
  match body with
  | [] => []
  | s :: rest =>
      List.filter (fun x => negb (known x defined)) (reads s)
      ++ undefined_reads (bound_names s ++ defined) rest
  end.

(** The names that a cell binds and no statement of [body] reads. *)
Definition unused_names (cell body : list stmt) : list string :=
  List.filter (fun x => negb (known x (flat_map reads body))) (flat_map bound_names cell).

Definition is_call (e : expr) : bool :=
  match e with ECall _ _ _ => true | _ => false end.

(** An expression in which nothing is called. *)
Definition call_free (e : expr) : bool :=
  forallb (fun e' => negb (is_call e')) (subexprs e).

End Flow.

(** A name that has a value in a state: a global name or a builtin. *)
Definition bound (x : string) (σ : Py.state) : Prop := is_Some (Py.lookup_name x σ).

Definition pyplot : list string := ["matplotlib"; "pyplot"].

(** The global names after the import cell. *)
Definition imported (e : gmap string Py.value) : gmap string Py.value :=
  <["c" := Py.VGlobal ["astropy"] "constants"]>
  (<["plt" := Py.VModule pyplot]>
  (<["np" := Py.VModule ["numpy"]]>
  (<["EmaxGeV" := Py.VGlobal GammaALPs.transfer "EmaxGeV"]>
  (<["EminGeV" := Py.VGlobal GammaALPs.transfer "EminGeV"]>
  (<["ModuleList" := Py.VGlobal GammaALPs.core "ModuleList"]>
  (<["ALP" := Py.VGlobal GammaALPs.core "ALP"]>
  (<["Source" := Py.VGlobal GammaALPs.core "Source"]> e))))))).

(** The decimal text of a natural number. *)
Definition decimal_text (n : nat) : string :=
  NilZero.string_of_int (Z.to_int (Z.of_nat n)).

(** The text of a shape: a tuple of integers, as Python writes it. *)
Definition shape_text (sh : list nat) : string :=
  match sh with
  | [n] => "(" +:+ decimal_text n +:+ ",)"
  | _ => "(" +:+ Py.join ", " (map decimal_text sh) +:+ ")"
  end.

(** Further states of the reference run: before [ml = ModuleList(...)],
    before [ml.add_propagation(...)], before the plotting cell and at the
    end; and the array [pa] of that run. *)
Definition state_before_module_list : Py.state := default Py.initial (state_after 5).
Definition state_before_add : Py.state := default Py.initial (state_after 6).
Definition state_before_plot : Py.state := default Py.initial (state_after 9).
Definition state_after_plot : Py.state := default Py.initial (state_after 10).
Definition reference_pa : Numpy.ndarray := GammaALPs.tabulate 1 1000 (fun _ _ => F64.zero).

(** * Properties *)

Import PyLex Numpy Py Analysis.

(** ** The syntax trees are the stored source *)

(** Each cell's statements are written with exactly the tokens of the cell's
    source text: the trees are a parse of the notebook, which therefore
    consists of simple statements only, none indented. *)
Lemma program_is_source :
  map cell_tokens program = map (fun c => lex (text c)) code_cells.
Proof. vm_compute. reflexivity. Qed.

Lemma code_cells_length : length code_cells = 10 /\ length program = 10.
Proof. split; reflexivity. Qed.

(** The recorded run executed the code cells once each, in order. *)
Lemma cells_ran_in_order : execution_counts mixing_single_cell = seq 1 10.
Proof. reflexivity. Qed.

(** The only keywords of the notebook are those of its import statements. *)
Lemma keywords_are_imports c k :
  In c code_cells -> In k (keywords_of (lex (text c))) -> In k ["from"; "import"; "as"].
Proof.
  intros Hc Hk.
  assert (H : forallb (fun c => forallb (fun k => existsb (String.eqb k) ["from"; "import"; "as"])
                                  (keywords_of (lex (text c)))) code_cells = true)
    by (vm_compute; reflexivity).
  rewrite forallb_forall in H. specialize (H c Hc).
  rewrite forallb_forall in H. specialize (H k Hk).
  apply existsb_exists in H as (x & Hx & Heq).
  apply String.eqb_eq in Heq. by subst.
Qed.

Lemma uses_keyword_In k ts : uses_keyword k ts = true -> In k (keywords_of ts).
Proof.
  unfold uses_keyword. rewrite existsb_exists. intros (x & Hx & Heq).
  apply String.eqb_eq in Heq. by subst.
Qed.

(** A keyword that no import statement is written with is not used. *)
Lemma keyword_unused c k :
  In c code_cells -> ~ In k ["from"; "import"; "as"] -> uses_keyword k (lex (text c)) = false.
Proof.
  intros Hc Hk. destruct (uses_keyword k (lex (text c))) eqn:E; [|done].
  exfalso. apply Hk. eapply keywords_are_imports; eauto using uses_keyword_In.
Qed.

(** A statement that raises ends its cell: the statements after it are not
    executed and the cell has no resulting state. *)
Lemma exec_cell_app `{Libm} `{Library} before rest σ :
  exec_cell (before ++ rest) σ = exec_cell before σ ≫= exec_cell rest.
Proof.
  revert σ. induction before as [|s before IH]; intros σ; simpl; [done|].
  destruct (exec s σ) as [σ'|]; simpl; auto.
Qed.

Lemma exception_propagates `{Libm} `{Library} before s rest σ σ' :
  exec_cell before σ = Some σ' -> exec s σ' = None ->
  exec_cell (before ++ s :: rest) σ = None.
Proof. intros Hb Hs. rewrite exec_cell_app, Hb. simpl. by rewrite Hs. Qed.

Lemma run_cells_app `{Libm} `{Library} before rest σ :
  run_cells (before ++ rest) σ = run_cells before σ ≫= run_cells rest.
Proof.
  revert σ. induction before as [|c before IH]; intros σ; simpl; [done|].
  destruct (exec_cell c σ) as [σ'|]; simpl; auto.
Qed.

(** No token of a code cell is a comparison operator, a lexical error or
    an indentation. *)
Lemma tokens_are_plain c t :
  In c code_cells -> In t (lex (text c)) ->
  is_comparison t = false /\ t <> TError /\ t <> TIndent.
Proof.
  intros Hc Ht.
  assert (H : forallb (fun c => forallb (fun t =>
                 negb (is_comparison t) && negb (bool_decide (t = TError))
                 && negb (bool_decide (t = TIndent))) (lex (text c))) code_cells = true)
    by (vm_compute; reflexivity).
  rewrite forallb_forall in H. specialize (H c Hc).
  rewrite forallb_forall in H. specialize (H t Ht).
  apply andb_prop in H as [H H3]. apply andb_prop in H as [H1 H2].
  apply negb_true_iff in H1, H2, H3.
  apply bool_decide_eq_false in H2, H3. auto.
Qed.

(** Every expression statement of the notebook is a call. *)
Lemma expression_statements_are_calls s e :
  In s (concat program) -> s = SExpr e -> exists f args kwargs, e = ECall f args kwargs.
Proof.
  intros Hs ->. simpl in Hs.
  repeat (destruct Hs as [Hs|Hs]; [try discriminate Hs; try (injection Hs as <-; eauto)|]).
  destruct Hs.
Qed.

(** ** The numpy operations *)

Lemma logspace_shape p a b n : shape (logspace p a b n) = [n].
Proof. reflexivity. Qed.

Lemma linspace_length a b n : length (linspace a b n) = n.
Proof.
  unfold linspace. destruct n as [|[|n]]; [done..|].
  rewrite length_app, length_map, length_seq. simpl. lia.
Qed.

Lemma logspace_well_formed p a b n : well_formed (logspace p a b n).
Proof.
  unfold well_formed, logspace. simpl.
  rewrite length_map, linspace_length. lia.
Qed.

(** The energies of the notebook are the powers of ten of 1000 exponents
    that start at 0.0, end at 8.0 and increase strictly. *)
Lemma energies_are_powers p :
  data (logspace p F64.zero (F64.of_Z 8) 1000)
  = F64s (map (p F64.ten) (linspace F64.zero (F64.of_Z 8) 1000)).
Proof. reflexivity. Qed.


(** Element [i * m + j] of a list of rows of length [m] is element [j] of
    row [i]. *)
Lemma lookup_rows {A} (f : nat -> list A) (m s n i j : nat) :
  (forall k, length (f k) = m) -> i < n -> j < m ->
  flat_map f (seq s n) !! (i * m + j) = f (s + i) !! j.
Proof.
  intros Hlen. revert s i. induction n as [|n IH]; intros s i Hi Hj; [lia|].
  simpl. destruct i as [|i].
  - rewrite lookup_app_l by (rewrite Hlen; lia). by rewrite Nat.add_0_r.
  - rewrite lookup_app_r by (rewrite Hlen; lia).
    rewrite Hlen. replace (S i * m + j - m) with (i * m + j) by lia.
    rewrite IH by lia. f_equal. f_equal. lia.
Qed.

Lemma diag_matrix_length {A} (z : A) xs :
  length (diag_matrix z xs) = length xs * length xs.
Proof.
  unfold diag_matrix.
  assert (H : forall s n, length (flat_map (diag_row z xs) (seq s n)) = n * length xs).
  { intros s n. revert s. induction n as [|n IH]; intros s; simpl; [done|].
    rewrite length_app, IH. unfold diag_row. by rewrite length_imap. }
  apply H.
Qed.

(** Entry [(i, j)] of the matrix that [diag] builds from a vector: the
    element [i] of the vector on the diagonal, zero off it. *)
Lemma diag_matrix_lookup {A} (z : A) xs i j :
  i < length xs -> j < length xs ->
  diag_matrix z xs !! (i * length xs + j)
  = (fun x => if Nat.eqb i j then x else z) <$> xs !! j.
Proof.
  intros Hi Hj. unfold diag_matrix.
  rewrite (lookup_rows _ (length xs)); [|intros k; unfold diag_row; by rewrite length_imap|done..].
  unfold diag_row. by rewrite list_lookup_imap.
Qed.

Lemma diag_off_diagonal xs i j :
  i < length xs -> j < length xs -> i <> j ->
  get2 (NDArray [length xs; length xs] (F64s (diag_matrix F64.zero xs))) i j = Some F64.zero.
Proof.
  intros Hi Hj Hij. unfold get2. simpl.
  apply Nat.ltb_lt in Hi as Hi', Hj as Hj'. rewrite Hi', Hj'. simpl.
  rewrite diag_matrix_lookup by done.
  apply Nat.eqb_neq in Hij. rewrite Hij.
  destruct (lookup_lt_is_Some_2 xs j Hj) as [x ->]. reflexivity.
Qed.

Lemma diag_diagonal xs i :
  i < length xs ->
  get2 (NDArray [length xs; length xs] (F64s (diag_matrix F64.zero xs))) i i = xs !! i.
Proof.
  intros Hi. unfold get2. simpl.
  apply Nat.ltb_lt in Hi as Hi'. rewrite Hi'. simpl.
  rewrite diag_matrix_lookup by done. rewrite Nat.eqb_refl.
  by destruct (xs !! i).
Qed.

(** ** The modelled library *)


(** With the modelled library, whatever the solver, the first seven cells
    run and reach a state in which [ml] is the module list, [np] is numpy
    and [ml.modules[0]] is an object with an array [psin]: the state in
    which the notebook overrides [psin]. *)
Lemma model_reaches_the_override (M : Libm) (S : GammaALPs.Solver) :
  exists σ om o a,
    run_cells (take 7 program) initial = Some σ
    /\ env σ !! "ml" = Some (VRef 2)
    /\ env σ !! "np" = Some (VModule ["numpy"])
    /\ heap σ !! 2 = Some om
    /\ attrs om !! "modules" = Some (VList [VRef 3])
    /\ heap σ !! 3 = Some o
    /\ attrs o !! "psin" = Some (VArray a).
Proof.
  assert (Hml : (σ ← run_cells (take 7 program) initial; env σ !! "ml") = Some (VRef 2))
    by (vm_compute; reflexivity).
  assert (Hnp : (σ ← run_cells (take 7 program) initial; env σ !! "np")
                = Some (VModule ["numpy"]))
    by (vm_compute; reflexivity).
  assert (Hms : (σ ← run_cells (take 7 program) initial; om ← heap σ !! 2;
                 attrs om !! "modules") = Some (VList [VRef 3]))
    by (vm_compute; reflexivity).
  assert (Hps : (σ ← run_cells (take 7 program) initial; o ← heap σ !! 3;
                 v ← attrs o !! "psin"; Some (is_array v)) = Some true)
    by (vm_compute; reflexivity).
  destruct (run_cells (take 7 program) initial) as [σ|]; [|discriminate Hml].
  cbn [mbind option_bind] in Hml, Hnp, Hms, Hps.
  destruct (heap σ !! 2) as [om|] eqn:Hom; [|discriminate Hms].
  destruct (heap σ !! 3) as [o|] eqn:Ho; [|discriminate Hps].
  cbn [mbind option_bind] in Hms, Hps.
  destruct (attrs o !! "psin") as [[| | | | | |a| | | | |]|] eqn:Ha; try discriminate Hps.
  exists σ, om, o, a. repeat split; assumption || reflexivity.
Qed.

(** ** Evaluation lemmas *)

Lemma env_bind x v σ : env (bind x v σ) = <[x := v]> (env σ).
Proof. reflexivity. Qed.

Lemma eval_name `{Libm} `{Library} x v σ :
  env σ !! x = Some v -> eval (EName x) σ = Some (v, σ).
Proof. intros Hx. simpl. unfold lookup_name. by rewrite Hx. Qed.

Lemma eval_attr `{Libm} `{Library} e a v r σ σ1 :
  eval e σ = Some (v, σ1) -> getattr (heap σ1) v a = Some r ->
  eval (EAttr e a) σ = Some (r, σ1).
Proof. intros He Ha. simpl. rewrite He. simpl. by rewrite Ha. Qed.

Lemma eval_subscript `{Libm} `{Library} e i v k r σ σ1 σ2 :
  eval e σ = Some (v, σ1) -> eval i σ1 = Some (k, σ2) -> getitem v k = Some r ->
  eval (ESubscript e i) σ = Some (r, σ2).
Proof. intros He Hi Hr. simpl. rewrite He. simpl. rewrite Hi. simpl. by rewrite Hr. Qed.

Lemma eval_binop `{Libm} `{Library} op l r a b v σ σ1 σ2 :
  eval l σ = Some (a, σ1) -> eval r σ1 = Some (b, σ2) -> binop_value op a b = Some v ->
  eval (EBinOp op l r) σ = Some (v, σ2).
Proof. intros Hl Hr Hv. simpl. rewrite Hl. simpl. rewrite Hr. simpl. by rewrite Hv. Qed.

(** A call evaluates the callee, then the arguments, then the keyword
    arguments, and calls. *)
Lemma eval_call `{Libm} `{Library} f args kwargs σ :
  eval (ECall f args kwargs) σ
  = '(fv, σ1) ← eval f σ; '(avs, σ2) ← eval_all args σ1;
    '(kvs, σ3) ← eval_keywords kwargs σ2; call fv avs kvs σ3.
Proof.
  simpl. destruct (eval f σ) as [[fv σ1]|]; [|done]. simpl.
  match goal with |- ?l ≫= _ = _ => assert (Ha : l = eval_all args σ1) end.
  { clear. revert σ1. induction args as [|e es IH]; intros σ1; simpl; [done|].
    destruct (eval e σ1) as [[v σ']|]; [|done]. simpl. by rewrite IH. }
  rewrite Ha. destruct (eval_all args σ1) as [[avs σ2]|]; [|done]. simpl.
  match goal with |- ?l ≫= _ = _ => assert (Hk : l = eval_keywords kwargs σ2) end.
  { clear. revert σ2. induction kwargs as [|[k e] kws IH]; intros σ2; simpl; [done|].
    destruct (eval e σ2) as [[v σ']|]; [|done]. simpl. by rewrite IH. }
  by rewrite Hk.
Qed.

Lemma eval_call1 `{Libm} `{Library} f e fv v r σ σ1 σ2 σ3 :
  eval f σ = Some (fv, σ1) -> eval e σ1 = Some (v, σ2) -> call fv [v] [] σ2 = Some (r, σ3) ->
  eval (ECall f [e] []) σ = Some (r, σ3).
Proof.
  intros Hf He Hc. rewrite eval_call, Hf. cbn [mbind option_bind eval_all].
  rewrite He. cbn [mbind option_bind eval_keywords]. exact Hc.
Qed.

Lemma getattr_object h l o a v :
  h !! l = Some o -> attrs o !! a = Some v -> getattr h (VRef l) a = Some v.
Proof. intros Hl Ha. simpl. rewrite Hl. simpl. by rewrite Ha. Qed.

Lemma getitem_first v vs : getitem (VList (v :: vs)) (VInt 0) = Some v.
Proof.
  simpl. unfold position. simpl.
  destruct (0 <? Z.pos (Pos.of_succ_nat (length vs)))%Z eqn:E; [done|].
  apply Z.ltb_ge in E. lia.
Qed.


(** *** Expressions over [np] and [ml.modules[0]] *)

Section Module0.

Context `{Libm} `{Library}.
Variables (σ : state) (lm l0 : nat) (rest : list value) (om o : object).
Hypothesis Hnp : env σ !! "np" = Some (VModule ["numpy"]).

Lemma eval_np_function f :
  f <> "pi" -> eval (EAttr (EName "np") f) σ = Some (VGlobal ["numpy"] f, σ).
Proof.
  intros Hf. eapply eval_attr; [by apply eval_name|].
  simpl. rewrite bool_decide_eq_false_2; [done|]. by intros [_ ?].
Qed.

Lemma eval_np_pi : eval (EAttr (EName "np") "pi") σ = Some (VFloat pi, σ).
Proof. eapply eval_attr; [by apply eval_name|]. reflexivity. Qed.

(** [EGeV = np.logspace(0.,8.,1000)] binds the logarithmic grid. *)
Lemma exec_energies :
  exec_cell cell_energies σ
  = Some (bind "EGeV" (VArray (logspace power F64.zero (F64.of_Z 8) 1000)) σ).
Proof.
  unfold cell_energies, exec_cell, exec.
  rewrite eval_call, eval_np_function by done.
  reflexivity.
Qed.

(** [pin = np.diag((1., 0., 0.))] binds the diagonal matrix. *)
Lemma exec_pin :
  exec_cell cell_pin σ
  = Some (bind "pin" (VArray (NDArray [3; 3]
            (F64s (diag_matrix F64.zero [F64.one; F64.zero; F64.zero])))) σ).
Proof.
  unfold cell_pin, exec_cell, exec.
  rewrite eval_call, eval_np_function by done.
  reflexivity.
Qed.

Hypothesis Hml : env σ !! "ml" = Some (VRef lm).
Hypothesis Hom : heap σ !! lm = Some om.
Hypothesis Hmods : attrs om !! "modules" = Some (VList (VRef l0 :: rest)).
Hypothesis Ho : heap σ !! l0 = Some o.

Lemma eval_module0 : eval module0 σ = Some (VRef l0, σ).
Proof.
  unfold module0.
  eapply eval_subscript; [|reflexivity|apply getitem_first].
  eapply eval_attr; [by apply eval_name|].
  by eapply getattr_object.
Qed.

Lemma eval_module0_attr a v :
  attrs o !! a = Some v -> eval (EAttr module0 a) σ = Some (v, σ).
Proof.
  intros Ha. eapply eval_attr; [apply eval_module0|]. by eapply getattr_object.
Qed.

Variable a : ndarray.
Hypothesis Hpsin : attrs o !! "psin" = Some (VArray a).

Lemma eval_psin_value :
  eval (EBinOp Div
          (EBinOp Mult (ECall (EAttr (EName "np") "ones_like") [EAttr module0 "psin"] [])
                       (EAttr (EName "np") "pi"))
          (ENum "2.")) σ
  = Some (VArray (psin_value a), σ).
Proof.
  assert (Hones : eval (ECall (EAttr (EName "np") "ones_like") [EAttr module0 "psin"] []) σ
                   = Some (VArray (ones_like a), σ)).
  { eapply eval_call1; [by apply eval_np_function|by apply eval_module0_attr|reflexivity]. }
  assert (Hmul : eval (EBinOp Mult (ECall (EAttr (EName "np") "ones_like")
                                       [EAttr module0 "psin"] [])
                                    (EAttr (EName "np") "pi")) σ
                  = Some (VArray (map_floats (fun x => F64.mul x pi) (ones_like a)), σ)).
  { eapply eval_binop; [apply Hones|apply eval_np_pi|reflexivity]. }
  eapply eval_binop; [apply Hmul|reflexivity|reflexivity].
Qed.

(** The override hands the new array to the store of the attribute [psin]
    of the module; the objects are afterwards as that store leaves them,
    and nothing else of the state changes. *)
Lemma exec_psin_override :
  exec psin_override σ
  = h ← store_attribute l0 "psin" (VArray (psin_value a)) (heap σ); Some (with_heap h σ).
Proof.
  unfold psin_override, exec. rewrite eval_psin_value.
  cbn [mbind option_bind assign]. by rewrite eval_module0.
Qed.

End Module0.

(** *** The array [np.ones_like(a) * np.pi / 2.] *)

(** Halving [np.pi] is exact: the quotient has the significand of [np.pi]
    and the next lower exponent. *)
Lemma half_pi_exact : half_pi = S754_finite false 7074237752028440 (-52).
Proof. reflexivity. Qed.

Lemma psin_value_shape a : shape (psin_value a) = shape a.
Proof. reflexivity. Qed.


Lemma psin_value_count a : count (data (psin_value a)) = count (data a).
Proof.
  unfold psin_value, map_floats, ones_like. simpl.
  destruct (data a); simpl; by rewrite !length_map.
Qed.



(** Keywords that no import statement is written with are not used. *)
Lemma keywords_unused (ks : list string) :
  forallb (fun k => negb (existsb (String.eqb k) ["from"; "import"; "as"])) ks = true ->
  forall c k, In c code_cells -> In k ks -> uses_keyword k (lex (text c)) = false.
Proof.
  intros H c k Hc Hk. apply keyword_unused; [done|].
  rewrite forallb_forall in H. specialize (H k Hk). apply negb_true_iff in H.
  intros Hi. enough (existsb (String.eqb k) ["from"; "import"; "as"] = true) by congruence.
  apply existsb_exists. exists k. split; [done|apply String.eqb_refl].
Qed.

Lemma psin_override_in_program : In psin_override (concat program).
Proof. simpl. do 12 right. left. reflexivity. Qed.

(** ** C1: the run reproduces the recorded shape *)

(** C1. Running all the code cells in order, with the library as the
    specification describes it, reproduces the recorded output: whatever the
    numbers the solver and the power function of numpy produce, the run
    ends, its standard output is the recorded text, (1, 1000) and a line
    feed, [EGeV] is bound to an array of 1000 energies, and [px], [py] and
    [pa] are bound to arrays of shape (1, 1000), of 1000 elements each: one
    field realization, the [nsim=1] of [ml.add_propagation], by the 1000
    energies of [np.logspace(0.,8.,1000)]. *)
Theorem notebook_reproduces_recorded_shape (M : Libm) (S : GammaALPs.Solver) :
  exists σ px py pa egev,
    run_cells program initial = Some σ
    /\ stdout σ = String.concat "" (stream_text "stdout" mixing_single_cell)
    /\ stdout σ = "(1, 1000)" +:+ nl
    /\ env σ !! "EGeV" = Some (VArray egev)
    /\ shape egev = [1000] /\ well_formed egev
    /\ env σ !! "px" = Some (VArray px) /\ shape px = [1; 1000] /\ well_formed px
    /\ env σ !! "py" = Some (VArray py) /\ shape py = [1; 1000] /\ well_formed py
    /\ env σ !! "pa" = Some (VArray pa) /\ shape pa = [1; 1000] /\ well_formed pa
    /\ keyword_values "add_propagation" "nsim" (concat program) = [ENum "1"]
    /\ literal "1" = Some (VInt 1)
    /\ method_args "logspace" (concat program) = [[ENum "0."; ENum "8."; ENum "1000"]]
    /\ literal "1000" = Some (VInt 1000).
Proof.
  assert (Hout : stdout <$> run_cells program initial
                 = Some (String.concat "" (stream_text "stdout" mixing_single_cell)))
    by (vm_compute; reflexivity).
  assert (Hshape : forall x, In x ["px"; "py"; "pa"] ->
            (σ ← run_cells program initial; v ← env σ !! x; array_shape v)
            = Some ([1; 1000], 1000)).
  { intros x [<-|[<-|[<-|[]]]]; vm_compute; reflexivity. }
  assert (Hegev : (σ ← run_cells program initial; v ← env σ !! "EGeV"; array_shape v)
                  = Some ([1000], 1000))
    by (vm_compute; reflexivity).
  pose proof (Hshape "px" ltac:(simpl; auto)) as Hpx.
  pose proof (Hshape "py" ltac:(simpl; auto)) as Hpy.
  pose proof (Hshape "pa" ltac:(simpl; auto)) as Hpa.
  destruct (run_cells program initial) as [σ|]; [|discriminate Hout].
  simpl in Hout, Hpx, Hpy, Hpa, Hegev. injection Hout as Hout.
  destruct (env σ !! "px") as [[| | | | | |px| | | | |]|] eqn:Epx; try discriminate Hpx.
  destruct (env σ !! "py") as [[| | | | | |py| | | | |]|] eqn:Epy; try discriminate Hpy.
  destruct (env σ !! "pa") as [[| | | | | |pa| | | | |]|] eqn:Epa; try discriminate Hpa.
  destruct (env σ !! "EGeV") as [[| | | | | |egev| | | | |]|] eqn:Ee; try discriminate Hegev.
  simpl in Hpx, Hpy, Hpa, Hegev.
  injection Hpx as Hpx Hnx. injection Hpy as Hpy Hny.
  injection Hpa as Hpa Hna. injection Hegev as Hegev Hne.
  exists σ, px, py, pa, egev. unfold well_formed.
  rewrite Hpx, Hpy, Hpa, Hegev, Hnx, Hny, Hna, Hne.
  repeat split; first [reflexivity | exact Hout | congruence].
Qed.

(** ** C2: the run returns three probability arrays *)




(** ** C3: the energy grid *)






(** ** C4: state shared between cells *)

(** C4, as stated, fails: the cell [ml = ModuleList(...)] (code cell 6)
    binds [ml], and the later cell 8 stores into the module reached through
    it, [ml.modules[0].psin = ...], before [ml.run()]. *)
Lemma psin_is_stored_by_a_later_cell :
  program !! 5 = Some cell_module_list
  /\ binds "ml" cell_module_list = true
  /\ program !! 7 = Some [psin_override]
  /\ stored_through psin_override = Some "ml"
  /\ In (5, 7, psin_override) (cross_cell_stores program)
  /\ ~ no_cross_cell_store program.
Proof.
  do 4 (split; [reflexivity|]).
  split; [by left|].
  unfold no_cross_cell_store. intros [H _]. discriminate H.
Qed.

(** C4, amended. The notebook has no suspension point ([async], [await],
    [yield]) and imports only gammaALPs, numpy, matplotlib and astropy.
    Later cells do work on the objects of earlier cells.  One assignment
    stores into such an object: [ml.modules[0].psin = ...] (cell 8), between
    the cell that adds the module and the cell that calls [ml.run()]; it is
    the only assignment to an attribute in the notebook.  Two method calls
    have such an object as receiver: [ml.add_propagation] (cell 7) and
    [ml.run] (cell 9), both on the [ml] of cell 6.  In a state where
    [ml.modules[0]] is an object with an array [psin], the assignment hands
    the module, the name [psin] and the new array to the store of the
    module's class: it executes exactly when that store does, the objects
    are then as the store leaves them, and nothing else of the state
    changes.  With the library as the specification describes it,
    [ml.add_propagation] changes [ml] too: its list of modules, empty before
    the call, holds the new module after it. *)
Theorem later_cells_work_on_earlier_objects (M : Libm) (L : Library)
    (σ : state) (lm l0 : nat) (rest : list value) (om o : object) (a : ndarray) :
  env σ !! "ml" = Some (VRef lm) ->
  env σ !! "np" = Some (VModule ["numpy"]) ->
  heap σ !! lm = Some om ->
  attrs om !! "modules" = Some (VList (VRef l0 :: rest)) ->
  heap σ !! l0 = Some o ->
  attrs o !! "psin" = Some (VArray a) ->
  (forall c k, In c code_cells -> In k suspension_keywords ->
     uses_keyword k (lex (text c)) = false)
  /\ flat_map imported_modules program
     = [["gammaALPs"; "core"]; ["gammaALPs"; "base"; "transfer"]; ["numpy"];
        ["matplotlib"; "pyplot"]; ["astropy"]]
  /\ cross_cell_stores program = [(5, 7, psin_override)]
  /\ assigned_attributes (concat program) = ["psin"]
  /\ cross_cell_calls program = [(5, 6, "ml", "add_propagation"); (5, 8, "ml", "run")]
  /\ program !! 5 = Some cell_module_list
  /\ program !! 6 = Some cell_add_propagation
  /\ program !! 7 = Some [psin_override]
  /\ program !! 8 = Some cell_run
  /\ psin_override = SAssign (EAttr module0 "psin") psin_rhs
  /\ exec psin_override σ
     = (h ← store_attribute l0 "psin" (VArray (psin_value a)) (heap σ);
        Some (with_heap h σ))
  /\ (forall σ', exec psin_override σ = Some σ' ->
        env σ' = env σ /\ stdout σ' = stdout σ /\ figure σ' = figure σ)
  /\ (o ← heap state_before_add !! 2; attrs o !! "modules") = Some (VList [])
  /\ (o ← heap state_before_psin !! 2; attrs o !! "modules") = Some (VList [VRef 3]).
Proof.
  intros Hml Hnp Hom Hmods Ho Hpsin.
  assert (Hex : exec psin_override σ
                = (h ← store_attribute l0 "psin" (VArray (psin_value a)) (heap σ);
                   Some (with_heap h σ)))
    by (by eapply exec_psin_override).
  split; [by apply keywords_unused|].
  do 9 (split; [reflexivity|]).
  split; [exact Hex|].
  split.
  { intros σ' Hσ'. rewrite Hex in Hσ'.
    destruct (store_attribute l0 "psin" _ (heap σ)) as [h|]; [|discriminate Hσ'].
    by injection Hσ' as <-. }
  split; vm_compute; reflexivity.
Qed.

(** The hypotheses hold in the reference run, before the override. *)
Lemma later_cells_work_on_earlier_objects_witness :
  (forall c k, In c code_cells -> In k suspension_keywords ->
     uses_keyword k (lex (text c)) = false)
  /\ flat_map imported_modules program
     = [["gammaALPs"; "core"]; ["gammaALPs"; "base"; "transfer"]; ["numpy"];
        ["matplotlib"; "pyplot"]; ["astropy"]]
  /\ cross_cell_stores program = [(5, 7, psin_override)]
  /\ assigned_attributes (concat program) = ["psin"]
  /\ cross_cell_calls program = [(5, 6, "ml", "add_propagation"); (5, 8, "ml", "run")]
  /\ program !! 5 = Some cell_module_list
  /\ program !! 6 = Some cell_add_propagation
  /\ program !! 7 = Some [psin_override]
  /\ program !! 8 = Some cell_run
  /\ psin_override = SAssign (EAttr module0 "psin") psin_rhs
  /\ @exec GammaALPs.flat_power (@GammaALPs.model GammaALPs.blank_solver)
       psin_override state_before_psin
     = (h ← @store_attribute (@GammaALPs.model GammaALPs.blank_solver) 3 "psin"
              (VArray (psin_value reference_psin)) (heap state_before_psin);
        Some (with_heap h state_before_psin))
  /\ (forall σ',
        @exec GammaALPs.flat_power (@GammaALPs.model GammaALPs.blank_solver)
          psin_override state_before_psin = Some σ' ->
        env σ' = env state_before_psin /\ stdout σ' = stdout state_before_psin
        /\ figure σ' = figure state_before_psin)
  /\ (o ← heap state_before_add !! 2; attrs o !! "modules") = Some (VList [])
  /\ (o ← heap state_before_psin !! 2; attrs o !! "modules") = Some (VList [VRef 3]).
Proof.
  eapply (later_cells_work_on_earlier_objects _ _ state_before_psin 2 3 [] _ _ reference_psin);
    vm_compute; reflexivity.
Defined.

(** ** C5: no error handling *)

(** C5. No error handling is present anywhere in the notebook's code.  The
    code cells are exactly the simple statements of [program] (imports,
    assignments and calls, none indented under a compound statement); no
    cell uses [try], [except], [finally], [raise], [assert], a conditional,
    a loop, [with] or a boolean test; no cell has a comparison operator, so
    no returned value is checked; every expression statement is a call; and
    a statement that raises ends its cell and the whole run: nothing
    handles the exception. *)
Theorem no_error_handling :
  map cell_tokens program = map (fun c => lex (text c)) code_cells
  /\ (forall c k, In c code_cells -> In k handling_keywords ->
        uses_keyword k (lex (text c)) = false)
  /\ (forall c t, In c code_cells -> In t (lex (text c)) ->
        is_comparison t = false /\ t <> TError /\ t <> TIndent)
  /\ (forall s e, In s (concat program) -> s = SExpr e ->
        exists f args kwargs, e = ECall f args kwargs)
  /\ (forall (M : Libm) (L : Library) earlier before s rest later σ0 σ σ',
        run_cells earlier σ0 = Some σ -> exec_cell before σ = Some σ' -> exec s σ' = None ->
        exec_cell (before ++ s :: rest) σ = None
        /\ run_cells (earlier ++ (before ++ s :: rest) :: later) σ0 = None).
Proof.
  split; [exact program_is_source|].
  split; [by apply keywords_unused|].
  split; [exact tokens_are_plain|].
  split; [exact expression_statements_are_calls|].
  intros M L earlier before s rest later σ0 σ σ' He Hb Hs.
  assert (Hc : exec_cell (before ++ s :: rest) σ = None)
    by eauto using exception_propagates.
  split; [done|].
  rewrite run_cells_app, He. simpl. by rewrite Hc.
Qed.

(** ** C6: what the notebook computes itself *)

(** C6, as stated, fails: the value stored in [psin] is not the result of a
    call but of a multiplication and a division written in the notebook. *)
Lemma psin_is_computed_in_the_notebook :
  In psin_override (concat program)
  /\ bound_by_call psin_override = false
  /\ ~ every_binding_is_a_call program.
Proof.
  split; [exact psin_override_in_program|].
  split; [reflexivity|].
  intros H. specialize (H psin_override psin_override_in_program). discriminate H.
Qed.

(** C6, amended. No cell defines a function or a class ([def], [class],
    [lambda] are not used).  Every assignment binds the result of a call,
    except two: [m, g = 10., 3.], which binds two literals, and the override
    of [psin], whose value is computed in the notebook by the only two binary
    operations of the program, [np.ones_like(...) * np.pi] and the division of
    that product by [2.]. *)
Theorem only_constants_and_psin_are_not_calls :
  (forall c k, In c code_cells -> In k definition_keywords ->
     uses_keyword k (lex (text c)) = false)
  /\ filter (fun s => negb (bound_by_call s)) (concat program)
     = [SAssign (ETuple false [EName "m"; EName "g"]) (ETuple false [ENum "10."; ENum "3."]);
        psin_override]
  /\ flat_map operations (concat program)
     = [(Div, EBinOp Mult (ECall (EAttr (EName "np") "ones_like") [EAttr module0 "psin"] [])
                          (EAttr (EName "np") "pi"), ENum "2.");
        (Mult, ECall (EAttr (EName "np") "ones_like") [EAttr module0 "psin"] [],
               EAttr (EName "np") "pi")]
  /\ (forall s t v, In s (concat program) -> s = SAssign t v -> s <> psin_override ->
        (exists f args kwargs, v = ECall f args kwargs)
        \/ (exists a b, v = ETuple false [a; b] /\ is_literal a = true /\ is_literal b = true)).
Proof.
  split; [by apply keywords_unused|].
  split; [reflexivity|].
  split; [reflexivity|].
  intros s t v Hs -> Hne. simpl in Hs.
  repeat (destruct Hs as [Hs|Hs];
          [try discriminate Hs;
           try (injection Hs as <- <-;
                first [ by left; eauto
                      | by right; do 2 eexists; repeat split ]);
           try (by exfalso; apply Hne; rewrite <- Hs)|]).
  destruct Hs.
Qed.

(** ** C7: the arities of [ALP] and [Source] *)

(** C7. [ALP] is called once, with exactly two positional arguments, the
    names [m] and [g], which the statement before it binds to the floats
    [10.] and [3.]; [Source] is called once, with exactly the three keyword
    arguments [z], [l] and [b], each the float [0.].  The notebook states no
    invariant or lifecycle of its own for them: it has no [class], [def],
    [assert], [del], [with], [global] or [nonlocal]. *)
Theorem constructor_arities (M : Libm) (L : Library) (σ0 : state) :
  (exists m g, calls_to "ALP" (concat program) = [([m; g], [])]
     /\ cell_alp !! 0
        = Some (SAssign (ETuple false [m; g]) (ETuple false [ENum "10."; ENum "3."]))
     /\ exists σ,
          exec (SAssign (ETuple false [m; g]) (ETuple false [ENum "10."; ENum "3."])) σ0
          = Some σ
          /\ eval_all [m; g] σ = Some ([VFloat F64.ten; VFloat (F64.of_Z 3)], σ)
          /\ forallb scalar [VFloat F64.ten; VFloat (F64.of_Z 3)] = true)
  /\ (exists z l b,
        calls_to "Source" (concat program) = [([], [("z", z); ("l", l); ("b", b)])]
        /\ eval_all [z; l; b] σ0
           = Some ([VFloat F64.zero; VFloat F64.zero; VFloat F64.zero], σ0)
        /\ forallb scalar [VFloat F64.zero; VFloat F64.zero; VFloat F64.zero] = true)
  /\ (forall c k, In c code_cells -> In k lifecycle_keywords ->
        uses_keyword k (lex (text c)) = false).
Proof.
  split.
  { exists (EName "m"), (EName "g"). split; [reflexivity|]. split; [reflexivity|].
    exists (bind "g" (VFloat (F64.of_Z 3)) (bind "m" (VFloat F64.ten) σ0)).
    split; [reflexivity|]. split; [|reflexivity].
    unfold eval_all.
    rewrite (eval_name "m" (VFloat F64.ten)); [|by rewrite !env_bind; simplify_map_eq].
    cbn [mbind option_bind].
    rewrite (eval_name "g" (VFloat (F64.of_Z 3))); [|by rewrite !env_bind; simplify_map_eq].
    reflexivity. }
  split.
  { exists (ENum "0."), (ENum "0."), (ENum "0."). repeat split; reflexivity. }
  by apply keywords_unused.
Qed.

(** ** C8: the initial polarization matrix *)

(** C8. In a state where [np] is numpy, [pin = np.diag((1., 0., 0.))] binds
    [pin] to a 3x3 float64 matrix that is idempotent ([pin @ pin = pin]), has
    trace 1, has every off-diagonal entry 0, and has the diagonal
    (1, 0, 0): the projector on the x polarization. *)
Theorem pin_is_the_x_polarization_projector (M : Libm) (L : Library) (σ : state) :
  env σ !! "np" = Some (VModule ["numpy"]) ->
  exists pin,
    exec_cell cell_pin σ = Some (bind "pin" (VArray pin) σ)
    /\ shape pin = [3; 3] /\ dtype_of pin = Float64 /\ well_formed pin
    /\ matmul pin pin = Some pin
    /\ trace pin = Some F64.one
    /\ (forall i j, i < 3 -> j < 3 -> i <> j -> get2 pin i j = Some F64.zero)
    /\ get2 pin 0 0 = Some F64.one
    /\ get2 pin 1 1 = Some F64.zero
    /\ get2 pin 2 2 = Some F64.zero.
Proof.
  intros Hnp. eexists. split; [by apply exec_pin|].
  do 5 (split; [reflexivity|]).
  split; [|by repeat split].
  intros i j Hi Hj Hij.
  by apply (diag_off_diagonal [F64.one; F64.zero; F64.zero]).
Qed.

(** After the import cell, [np] is numpy. *)
Lemma pin_is_the_x_polarization_projector_witness :
  exists pin,
    @exec_cell GammaALPs.flat_power (@GammaALPs.model GammaALPs.blank_solver) cell_pin state_after_imports
    = Some (bind "pin" (VArray pin) state_after_imports)
    /\ shape pin = [3; 3] /\ dtype_of pin = Float64 /\ well_formed pin
    /\ matmul pin pin = Some pin
    /\ trace pin = Some F64.one
    /\ (forall i j, i < 3 -> j < 3 -> i <> j -> get2 pin i j = Some F64.zero)
    /\ get2 pin 0 0 = Some F64.one
    /\ get2 pin 1 1 = Some F64.zero
    /\ get2 pin 2 2 = Some F64.zero.
Proof.
  apply (pin_is_the_x_polarization_projector _ _ state_after_imports).
  vm_compute. reflexivity.
Defined.

(** ** C10: the override of [psin] *)




(** * Further properties of the cells *)

(** What follows holds for every library, unless a statement names the
    reference run: the cells are executed by the interpreter above, and a
    call of gammaALPs is whatever function of its arguments and of the
    objects. *)

Import Flow.

(** ** Evaluation never rebinds a name *)

(** Induction on expressions, with the hypothesis for every argument. *)
Lemma expr_ind_nested (P : expr -> Prop) :
  (forall l, P (ENum l)) ->
  (forall s, P (EStr s)) ->
  (forall x, P (EName x)) ->
  (forall e a, P e -> P (EAttr e a)) ->
  (forall e i, P e -> P i -> P (ESubscript e i)) ->
  (forall f args kwargs, P f -> Forall P args -> Forall (fun kw => P kw.2) kwargs ->
     P (ECall f args kwargs)) ->
  (forall p elts, Forall P elts -> P (ETuple p elts)) ->
  (forall op l r, P l -> P r -> P (EBinOp op l r)) ->
  forall e, P e.
Proof.
  intros Hnum Hstr Hname Hattr Hsub Hcall Htuple Hbin.
  fix IH 1. intros [l|s|x|e a|e i|f args kwargs|p elts|op l r].
  - apply Hnum.
  - apply Hstr.
  - apply Hname.
  - apply Hattr, IH.
  - apply Hsub; apply IH.
  - apply Hcall; [apply IH| |].
    + induction args as [|e es IHes]; constructor; [apply IH|exact IHes].
    + induction kwargs as [|[k e] kws IHk]; constructor; [apply IH|exact IHk].
  - apply Htuple. induction elts as [|e es IHes]; constructor; [apply IH|exact IHes].
  - apply Hbin; apply IH.
Qed.

Lemma eval_tuple `{Libm} `{Library} p elts σ :
  eval (ETuple p elts) σ = '(vs, σ1) ← eval_all elts σ; Some (VTuple vs, σ1).
Proof.
  simpl.
  match goal with |- ?l ≫= _ = _ => assert (Ha : l = eval_all elts σ) end.
  { clear. revert σ. induction elts as [|e es IH]; intros σ; simpl; [done|].
    destruct (eval e σ) as [[v σ']|]; [|done]. simpl. by rewrite IH. }
  by rewrite Ha.
Qed.

Lemma call_env `{Libm} `{Library} f args kwargs σ v σ' :
  call f args kwargs σ = Some (v, σ') -> env σ' = env σ.
Proof.
  unfold call. intros Hc.
  destruct f; try discriminate Hc.
  - case_bool_decide.
    + destruct kwargs; [|discriminate Hc].
      destruct (call_numpy name args); [|discriminate Hc]. by injection Hc as <- <-.
    + case_bool_decide.
      * by injection Hc as <- <-.
      * destruct (call_function module name args kwargs (heap σ)) as [[r h]|];
          [|discriminate Hc].
        by injection Hc as <- <-.
  - destruct (call_method self name args kwargs (heap σ)) as [[r h]|]; [|discriminate Hc].
    by injection Hc as <- <-.
  - destruct (String.eqb name "print"); [|discriminate Hc].
    destruct kwargs; [|discriminate Hc].
    destruct (print_line args); [|discriminate Hc]. by injection Hc as <- <-.
Qed.

Section Env.
Context `{Libm} `{Library}.

Lemma eval_all_env_aux es :
  Forall (fun e => forall σ v σ', eval e σ = Some (v, σ') -> env σ' = env σ) es ->
  forall σ vs σ', eval_all es σ = Some (vs, σ') -> env σ' = env σ.
Proof.
  induction 1 as [|e es He _ IH]; intros σ vs σ' Hev; simpl in Hev.
  - by injection Hev as <- <-.
  - destruct (eval e σ) as [[v σ1]|] eqn:E1; [|discriminate Hev].
    cbn [mbind option_bind] in Hev.
    destruct (eval_all es σ1) as [[vs' σ2]|] eqn:E2; [|discriminate Hev].
    injection Hev as <- <-. rewrite (IH _ _ _ E2). eauto.
Qed.

Lemma eval_keywords_env_aux kws :
  Forall (fun kw : string * expr =>
            forall σ v σ', eval kw.2 σ = Some (v, σ') -> env σ' = env σ) kws ->
  forall σ vs σ', eval_keywords kws σ = Some (vs, σ') -> env σ' = env σ.
Proof.
  induction 1 as [|[k e] kws He _ IH]; intros σ vs σ' Hev; simpl in Hev.
  - by injection Hev as <- <-.
  - destruct (eval e σ) as [[v σ1]|] eqn:E1; [|discriminate Hev].
    cbn [mbind option_bind] in Hev.
    destruct (eval_keywords kws σ1) as [[vs' σ2]|] eqn:E2; [|discriminate Hev].
    injection Hev as <- <-. rewrite (IH _ _ _ E2). eauto.
Qed.

(** Evaluating an expression never rebinds a name. *)
Lemma eval_env e : forall σ v σ', eval e σ = Some (v, σ') -> env σ' = env σ.
Proof.
  induction e as [l|s|x|e a IH|e i IHe IHi|f args kwargs IHf IHa IHk|p elts IHe|op l r IHl IHr]
    using expr_ind_nested; intros σ v σ' Hev.
  - simpl in Hev. destruct (literal l); [|discriminate Hev]. by injection Hev as <- <-.
  - by injection Hev as <- <-.
  - simpl in Hev. destruct (lookup_name x σ); [|discriminate Hev]. by injection Hev as <- <-.
  - simpl in Hev. destruct (eval e σ) as [[b σ1]|] eqn:E; [|discriminate Hev].
    cbn [mbind option_bind] in Hev.
    destruct (getattr (heap σ1) b a); [|discriminate Hev].
    injection Hev as <- <-. eauto.
  - simpl in Hev. destruct (eval e σ) as [[b σ1]|] eqn:E; [|discriminate Hev].
    cbn [mbind option_bind] in Hev.
    destruct (eval i σ1) as [[k σ2]|] eqn:E2; [|discriminate Hev].
    cbn [mbind option_bind] in Hev.
    destruct (getitem b k); [|discriminate Hev].
    injection Hev as <- <-. rewrite (IHi _ _ _ E2). eauto.
  - rewrite eval_call in Hev.
    destruct (eval f σ) as [[fv σ1]|] eqn:E1; [|discriminate Hev].
    cbn [mbind option_bind] in Hev.
    destruct (eval_all args σ1) as [[avs σ2]|] eqn:E2; [|discriminate Hev].
    cbn [mbind option_bind] in Hev.
    destruct (eval_keywords kwargs σ2) as [[kvs σ3]|] eqn:E3; [|discriminate Hev].
    cbn [mbind option_bind] in Hev.
    rewrite (call_env _ _ _ _ _ _ Hev), (eval_keywords_env_aux _ IHk _ _ _ E3),
      (eval_all_env_aux _ IHa _ _ _ E2). eauto.
  - rewrite eval_tuple in Hev.
    destruct (eval_all elts σ) as [[vs σ1]|] eqn:E1; [|discriminate Hev].
    injection Hev as <- <-. by eapply eval_all_env_aux.
  - simpl in Hev. destruct (eval l σ) as [[a σ1]|] eqn:E1; [|discriminate Hev].
    cbn [mbind option_bind] in Hev.
    destruct (eval r σ1) as [[b σ2]|] eqn:E2; [|discriminate Hev].
    cbn [mbind option_bind] in Hev.
    destruct (binop_value op a b); [|discriminate Hev].
    injection Hev as <- <-. rewrite (IHr _ _ _ E2). eauto.
Qed.

End Env.

(** ** An expression needs the names it reads *)

Lemma bound_env x σ σ' : env σ' = env σ -> bound x σ -> bound x σ'.
Proof. unfold bound, lookup_name. by intros ->. Qed.

Lemma names_attr e a : names (EAttr e a) = names e.
Proof. reflexivity. Qed.
Lemma names_subscript e i : names (ESubscript e i) = names e ++ names i.
Proof. unfold names. simpl. by rewrite flat_map_app. Qed.
Lemma names_binop op l r : names (EBinOp op l r) = names l ++ names r.
Proof. unfold names. simpl. by rewrite flat_map_app. Qed.
Lemma names_tuple p es : names (ETuple p es) = flat_map names es.
Proof.
  unfold names. simpl. induction es as [|e es IH]; simpl; [done|].
  by rewrite flat_map_app, IH.
Qed.
Lemma names_call f args kwargs :
  names (ECall f args kwargs)
  = names f ++ flat_map names args ++ flat_map (fun kw => names kw.2) kwargs.
Proof.
  unfold names. simpl. rewrite !flat_map_app. f_equal. f_equal.
  - induction args as [|e es IH]; simpl; [done|]. by rewrite flat_map_app, IH.
  - induction kwargs as [|[k e] es IH]; simpl; [done|]. by rewrite flat_map_app, IH.
Qed.

Section Names.
Context `{Libm} `{Library}.

Lemma eval_all_names_aux es :
  Forall (fun e => forall σ v σ', eval e σ = Some (v, σ') ->
                     forall x, In x (names e) -> bound x σ) es ->
  forall σ vs σ', eval_all es σ = Some (vs, σ') ->
    forall x, In x (flat_map names es) -> bound x σ.
Proof.
  induction 1 as [|e es He _ IH]; intros σ vs σ' Hev x Hx; simpl in Hev, Hx; [done|].
  destruct (eval e σ) as [[v σ1]|] eqn:E1; [|discriminate Hev].
  cbn [mbind option_bind] in Hev.
  destruct (eval_all es σ1) as [[vs' σ2]|] eqn:E2; [|discriminate Hev].
  apply in_app_or in Hx as [Hx|Hx]; [by eapply He|].
  eapply bound_env; [symmetry; by eapply eval_env|]. by eapply IH.
Qed.

Lemma eval_keywords_names_aux kws :
  Forall (fun kw : string * expr =>
            forall σ v σ', eval kw.2 σ = Some (v, σ') ->
              forall x, In x (names kw.2) -> bound x σ) kws ->
  forall σ vs σ', eval_keywords kws σ = Some (vs, σ') ->
    forall x, In x (flat_map (fun kw => names kw.2) kws) -> bound x σ.
Proof.
  induction 1 as [|[k e] kws He _ IH]; intros σ vs σ' Hev x Hx; simpl in Hev, Hx; [done|].
  destruct (eval e σ) as [[v σ1]|] eqn:E1; [|discriminate Hev].
  cbn [mbind option_bind] in Hev.
  destruct (eval_keywords kws σ1) as [[vs' σ2]|] eqn:E2; [|discriminate Hev].
  apply in_app_or in Hx as [Hx|Hx]; [by eapply He|].
  eapply bound_env; [symmetry; by eapply eval_env|]. by eapply IH.
Qed.

(** An expression has a value only if every name it reads is bound. *)
Lemma eval_names e :
  forall σ v σ', eval e σ = Some (v, σ') -> forall x, In x (names e) -> bound x σ.
Proof.
  induction e as [l|s|y|e a IH|e i IHe IHi|f args kwargs IHf IHa IHk|p elts IHe|op l r IHl IHr]
    using expr_ind_nested; intros σ v σ' Hev x Hx.
  - destruct Hx.
  - destruct Hx.
  - destruct Hx as [<-|[]]. simpl in Hev. unfold bound.
    destruct (lookup_name y σ); [by eexists|discriminate Hev].
  - rewrite names_attr in Hx. simpl in Hev.
    destruct (eval e σ) as [[b σ1]|] eqn:E; [|discriminate Hev]. eauto.
  - rewrite names_subscript in Hx. simpl in Hev.
    destruct (eval e σ) as [[b σ1]|] eqn:E; [|discriminate Hev].
    cbn [mbind option_bind] in Hev.
    destruct (eval i σ1) as [[k σ2]|] eqn:E2; [|discriminate Hev].
    apply in_app_or in Hx as [Hx|Hx]; [eauto|].
    eapply bound_env; [symmetry; by eapply eval_env|]. eauto.
  - rewrite names_call in Hx. rewrite eval_call in Hev.
    destruct (eval f σ) as [[fv σ1]|] eqn:E1; [|discriminate Hev].
    cbn [mbind option_bind] in Hev.
    destruct (eval_all args σ1) as [[avs σ2]|] eqn:E2; [|discriminate Hev].
    cbn [mbind option_bind] in Hev.
    destruct (eval_keywords kwargs σ2) as [[kvs σ3]|] eqn:E3; [|discriminate Hev].
    apply in_app_or in Hx as [Hx|Hx]; [eauto|].
    apply in_app_or in Hx as [Hx|Hx].
    + eapply bound_env; [symmetry; by eapply eval_env|].
      by eapply eval_all_names_aux.
    + eapply bound_env; [symmetry; by eapply eval_env|].
      eapply bound_env; [symmetry; eapply eval_all_env_aux; [|exact E2]|].
      { apply Forall_forall. intros ? _. apply eval_env. }
      by eapply eval_keywords_names_aux.
  - rewrite names_tuple in Hx. rewrite eval_tuple in Hev.
    destruct (eval_all elts σ) as [[vs σ1]|] eqn:E1; [|discriminate Hev].
    by eapply eval_all_names_aux.
  - rewrite names_binop in Hx. simpl in Hev.
    destruct (eval l σ) as [[a σ1]|] eqn:E1; [|discriminate Hev].
    cbn [mbind option_bind] in Hev.
    destruct (eval r σ1) as [[b σ2]|] eqn:E2; [|discriminate Hev].
    apply in_app_or in Hx as [Hx|Hx]; [eauto|].
    eapply bound_env; [symmetry; by eapply eval_env|]. eauto.
Qed.

(** A statement executes only if every name it reads is bound. *)
Lemma exec_reads s σ σ' x :
  exec s σ = Some σ' -> In x (reads s) -> bound x σ.
Proof.
  destruct s as [m a|m ns|t v|e]; simpl; intros Hex Hx; try done.
  - destruct (eval v σ) as [[r σ1]|] eqn:E; [|discriminate Hex].
    cbn [mbind option_bind] in Hex.
    apply in_app_or in Hx as [Hx|Hx]; [by eapply eval_names|].
    destruct t; try done. simpl in Hex.
    destruct (eval t σ1) as [[b σ2]|] eqn:E2; [|discriminate Hex].
    eapply bound_env; [symmetry; by eapply eval_env|]. by eapply eval_names.
  - destruct (eval e σ) as [[r σ1]|] eqn:E; [|discriminate Hex].
    by eapply eval_names.
Qed.

End Names.

(** ** A statement binds the names on its left *)

Lemma known_In x xs : known x xs = true <-> In x xs.
Proof.
  unfold known. rewrite existsb_exists. split.
  - intros (y & Hy & Heq). apply String.eqb_eq in Heq. by subst.
  - intros Hx. exists x. split; [done|apply String.eqb_refl].
Qed.

Lemma undefined_reads_fresh body :
  forall defined x, In x (undefined_reads defined body) -> ~ In x defined.
Proof.
  induction body as [|s body IH]; intros defined x Hx; simpl in Hx; [done|].
  apply in_app_or in Hx as [Hx|Hx].
  - apply filter_In in Hx as [_ Hk]. apply negb_true_iff in Hk.
    intros Hin. apply known_In in Hin. congruence.
  - intros Hin. apply (IH _ _ Hx), in_or_app. by right.
Qed.

Section Frame.
Context `{Libm} `{Library}.

(** Assignment binds the names of its target and no other. *)
Lemma assign_env t :
  forall v σ σ', assign t v σ = Some σ' ->
    forall x, ~ In x (target_names t) -> env σ' !! x = env σ !! x.
Proof.
  induction t as [l|s|y|e a IH|e i IHe IHi|f args kwargs IHf IHa IHk|p elts IHe|op l r IHl IHr]
    using expr_ind_nested; intros v σ σ' Has x Hx; try discriminate Has.
  - injection Has as <-. simpl in Hx. rewrite env_bind, lookup_insert_ne; [done|tauto].
  - simpl in Has. destruct (eval e σ) as [[b σ1]|] eqn:E; [|discriminate Has].
    cbn [mbind option_bind] in Has. destruct b; try discriminate Has.
    destruct (store_attribute l a v (heap σ1)); [|discriminate Has]. injection Has as <-.
    simpl. by rewrite (eval_env _ _ _ _ E).
  - simpl in Has. destruct (items v) as [vs|]; [|discriminate Has].
    cbn [mbind option_bind] in Has. simpl in Hx.
    revert vs σ Has Hx. induction IHe as [|t ts Ht _ IHts]; intros vs σ Has Hx.
    + destruct vs; [|discriminate Has]. by injection Has as <-.
    + destruct vs as [|v' vs]; [discriminate Has|].
      destruct (assign t v' σ) as [σ1|] eqn:E1; [|discriminate Has].
      cbn [mbind option_bind] in Has. simpl in Hx.
      rewrite (IHts vs σ1 Has); [|intros ?; apply Hx, in_or_app; by right].
      eapply Ht; [exact E1|]. intros ?; apply Hx, in_or_app; by left.
Qed.

Lemma fold_bind_env (m : list string) names σ x :
  ~ In x (map (fun n : string * option string => default n.1 n.2) names) ->
  env (fold_left (fun σ' n => bind (default n.1 n.2) (VGlobal m n.1) σ') names σ) !! x
  = env σ !! x.
Proof.
  revert σ. induction names as [|n ns IH]; intros σ Hx; simpl; [done|].
  simpl in Hx. rewrite IH by tauto. rewrite env_bind, lookup_insert_ne; [done|tauto].
Qed.

(** A statement binds the names on its left and no other. *)
Lemma exec_env s σ σ' x :
  exec s σ = Some σ' -> ~ In x (bound_names s) -> env σ' !! x = env σ !! x.
Proof.
  destruct s as [m a|m ns|t v|e]; simpl; intros Hex Hx.
  - destruct (import_name m a) as [y|]; [|discriminate Hex].
    cbn [mbind option_bind] in Hex.
    destruct (import_module m (heap σ)) as [h|]; [|discriminate Hex].
    injection Hex as <-. rewrite env_bind, lookup_insert_ne; [done|]. simpl in Hx. tauto.
  - destruct (import_module m (heap σ)) as [h|]; [|discriminate Hex].
    cbn [mbind option_bind] in Hex.
    destruct (forallb _ ns); [|discriminate Hex].
    injection Hex as <-. by rewrite fold_bind_env.
  - destruct (eval v σ) as [[r σ1]|] eqn:E; [|discriminate Hex].
    cbn [mbind option_bind] in Hex.
    rewrite (assign_env _ _ _ _ Hex) by done. by rewrite (eval_env _ _ _ _ E).
  - destruct (eval e σ) as [[r σ1]|] eqn:E; [|discriminate Hex].
    injection Hex as <-. by rewrite (eval_env _ _ _ _ E).
Qed.

Lemma exec_cell_env body σ σ' x :
  exec_cell body σ = Some σ' -> ~ In x (flat_map bound_names body) ->
  env σ' !! x = env σ !! x.
Proof.
  revert σ. induction body as [|s body IH]; intros σ Hex Hx; simpl in Hex.
  - by injection Hex as <-.
  - destruct (exec s σ) as [σ1|] eqn:E; [|discriminate Hex].
    cbn [mbind option_bind] in Hex. simpl in Hx.
    rewrite (IH σ1 Hex); [|intros ?; apply Hx, in_or_app; by right].
    eapply exec_env; [done|]. intros ?; apply Hx, in_or_app; by left.
Qed.

Lemma run_cells_env cells σ σ' x :
  run_cells cells σ = Some σ' -> ~ In x (flat_map bound_names (concat cells)) ->
  env σ' !! x = env σ !! x.
Proof.
  revert σ. induction cells as [|c cells IH]; intros σ Hex Hx; simpl in Hex.
  - by injection Hex as <-.
  - destruct (exec_cell c σ) as [σ1|] eqn:E; [|discriminate Hex].
    cbn [mbind option_bind] in Hex. simpl in Hx. rewrite flat_map_app in Hx.
    rewrite (IH σ1 Hex); [|intros ?; apply Hx, in_or_app; by right].
    eapply exec_cell_env; [done|]. intros ?; apply Hx, in_or_app; by left.
Qed.

(** Statements execute only if the names they read before binding them
    are bound at the start. *)
Lemma exec_cell_reads body :
  forall defined σ σ' x, exec_cell body σ = Some σ' ->
    In x (undefined_reads defined body) -> bound x σ.
Proof.
  induction body as [|s body IH]; intros defined σ σ' x Hex Hx; simpl in Hex, Hx; [done|].
  destruct (exec s σ) as [σ1|] eqn:E; [|discriminate Hex].
  cbn [mbind option_bind] in Hex.
  apply in_app_or in Hx as [Hx|Hx].
  - apply filter_In in Hx as [Hx _]. by eapply exec_reads.
  - pose proof (IH _ _ _ _ Hex Hx) as Hb.
    assert (Hn : ~ In x (bound_names s)).
    { intros Hin. apply (undefined_reads_fresh _ _ _ Hx), in_or_app. by left. }
    unfold bound, lookup_name in *. by rewrite <- (exec_env _ _ _ _ E Hn).
Qed.

End Frame.

(** ** X1: the import cell *)

Lemma imported_other e x :
  ~ In x (flat_map bound_names cell_imports) -> imported e !! x = e !! x.
Proof.
  intros Hx. unfold imported. simpl in Hx.
  rewrite !lookup_insert_ne; [done|..]; intros <-; apply Hx; tauto.
Qed.

(** Importing stops at the first module that does not import, or does not
    define a name imported from it. *)
Lemma import_all_raises `{Library} ms m ns h :
  In (m, ns) ms ->
  (forall h', import_module m h' = None) \/ forallb (module_has m) ns = false ->
  import_all ms h = None.
Proof.
  revert h. induction ms as [|[m' ns'] ms IH]; intros h Hin Hbad; [destruct Hin|].
  cbn [import_all]. destruct Hin as [[= -> ->]|Hin].
  - destruct Hbad as [Hm|Hn].
    + by rewrite Hm.
    + rewrite Hn. by destruct (import_module m h).
  - destruct (import_module m' h) as [h'|]; [|done]. cbn [mbind option_bind].
    destruct (forallb (module_has m') ns'); [|done]. by apply IH.
Qed.

(** The import cell imports its five modules in order and then binds the
    eight names. *)
Lemma exec_imports `{Libm} `{Library} σ :
  exec_cell cell_imports σ
  = h ← imports_heap (heap σ); Some (State (imported (env σ)) h (stdout σ) (figure σ)).
Proof.
  unfold imports_heap, cell_imports.
  cbn [flat_map imports_of app map fst import_all exec_cell exec import_name forallb].
  destruct (import_module ["gammaALPs"; "core"] (heap σ)) as [h1|]; [|reflexivity].
  cbn [mbind option_bind].
  destruct (module_has ["gammaALPs"; "core"] "Source"
            && (module_has ["gammaALPs"; "core"] "ALP"
                && (module_has ["gammaALPs"; "core"] "ModuleList" && true))); [|reflexivity].
  cbn [mbind option_bind fold_left heap with_heap bind].
  destruct (import_module ["gammaALPs"; "base"; "transfer"] h1) as [h2|]; [|reflexivity].
  cbn [mbind option_bind].
  destruct (module_has ["gammaALPs"; "base"; "transfer"] "EminGeV"
            && (module_has ["gammaALPs"; "base"; "transfer"] "EmaxGeV" && true));
    [|reflexivity].
  cbn [mbind option_bind fold_left heap with_heap bind].
  destruct (import_module ["numpy"] h2) as [h3|]; [|reflexivity].
  cbn [mbind option_bind fold_left heap with_heap bind].
  destruct (import_module ["matplotlib"; "pyplot"] h3) as [h4|]; [|reflexivity].
  cbn [mbind option_bind fold_left heap with_heap bind].
  destruct (import_module ["astropy"] h4) as [h5|]; [|reflexivity].
  cbn [mbind option_bind].
  destruct (module_has ["astropy"] "constants" && true); reflexivity.
Qed.

(** X1. The import cell.  It imports, in this order, [gammaALPs.core],
    [gammaALPs.base.transfer], [numpy], [matplotlib.pyplot] and [astropy],
    and requires the first to define [Source], [ALP] and [ModuleList], the
    second [EminGeV] and [EmaxGeV] and the last [constants]: the cell raises
    when one of the modules does not import or lacks such a name.  When it
    executes, it binds the eight names [Source], [ALP], [ModuleList],
    [EminGeV], [EmaxGeV], [np], [plt] and [c] to the imported classes,
    functions and modules and leaves every other name, the standard output
    and the figure as they are; the objects are as the code of the five
    modules leaves them.  Of the eight names, [c] is the only one that no
    statement of the notebook reads. *)
Theorem import_cell_binds_eight_names (M : Libm) (L : Library) (σ : state) :
  exec_cell cell_imports σ
  = (h ← imports_heap (heap σ); Some (State (imported (env σ)) h (stdout σ) (figure σ)))
  /\ flat_map imports_of cell_imports
     = [(["gammaALPs"; "core"], ["Source"; "ALP"; "ModuleList"]);
        (["gammaALPs"; "base"; "transfer"], ["EminGeV"; "EmaxGeV"]);
        (["numpy"], []); (["matplotlib"; "pyplot"], []); (["astropy"], ["constants"])]
  /\ (forall m ns, In (m, ns) (flat_map imports_of cell_imports) ->
        (forall h, import_module m h = None) \/ forallb (module_has m) ns = false ->
        exec_cell cell_imports σ = None)
  /\ (forall σ', exec_cell cell_imports σ = Some σ' ->
        imports_heap (heap σ) = Some (heap σ')
        /\ env σ' = imported (env σ)
        /\ (forall x, ~ In x (flat_map bound_names cell_imports) ->
              env σ' !! x = env σ !! x)
        /\ stdout σ' = stdout σ /\ figure σ' = figure σ)
  /\ flat_map bound_names cell_imports
     = ["Source"; "ALP"; "ModuleList"; "EminGeV"; "EmaxGeV"; "np"; "plt"; "c"]
  /\ unused_names cell_imports (concat program) = ["c"].
Proof.
  split; [apply exec_imports|].
  split; [reflexivity|].
  split.
  { intros m ns Hin Hbad. rewrite exec_imports. unfold imports_heap.
    by rewrite (import_all_raises _ m ns). }
  split; [|split; reflexivity].
  intros σ' Hσ'. rewrite exec_imports in Hσ'.
  destruct (imports_heap (heap σ)) as [h|]; [|discriminate Hσ'].
  injection Hσ' as <-. cbn [env heap stdout figure].
  split; [reflexivity|]. split; [reflexivity|].
  split; [intros x Hx; by apply imported_other|]. by split.
Qed.

(** ** X2: the cells depend on their order *)

(** X2. A code cell executed in a state where a name it reads before
    binding it has no value raises, whatever the library, and that name is
    bound by an earlier cell of the notebook: the cells depend on being run
    in order.  Run in order, no statement reads a name that is not yet
    bound (the builtin [print] apart), and the recorded execution counts, 1
    to 10, are that order. *)
Theorem cell_raises_without_its_names (M : Libm) (L : Library)
    (c : list stmt) (x : string) (σ : state) :
  In c program -> In x (undefined_reads builtins c) -> env σ !! x = None ->
  exec_cell c σ = None
  /\ (exists before after,
        program = before ++ c :: after /\ In x (flat_map bound_names (concat before)))
  /\ undefined_reads builtins (concat program) = []
  /\ execution_counts mixing_single_cell = seq 1 10.
Proof.
  intros Hc Hx Hu. split.
  { destruct (exec_cell c σ) as [σ'|] eqn:E; [|done].
    pose proof (exec_cell_reads _ _ _ _ _ E Hx) as [v Hv].
    apply undefined_reads_fresh in Hx.
    unfold lookup_name in Hv. rewrite Hu in Hv.
    destruct (existsb (String.eqb x) builtins) eqn:Eb; [|discriminate Hv].
    exfalso. apply Hx. by apply known_In. }
  split; [|split; reflexivity].
  simpl in Hc.
  repeat (destruct Hc as [<-|Hc];
    [match goal with
     | |- exists before after, program = before ++ ?c :: after /\ _ =>
         let rec go n :=
           first [ exists (take n program), (drop (S n) program);
                   split; [reflexivity|vm_compute in Hx; vm_compute; tauto]
                 | go (S n) ] in
         first [ by destruct Hx | go 0 ]
     end|]).
  destruct Hc.
Qed.

(** In the initial state, the second cell raises: [ALP] is not bound. *)
Lemma cell_raises_without_its_names_witness :
  @exec_cell GammaALPs.flat_power (@GammaALPs.model GammaALPs.blank_solver) cell_alp initial = None
  /\ (exists before after,
        program = before ++ cell_alp :: after /\ In "ALP" (flat_map bound_names (concat before)))
  /\ undefined_reads builtins (concat program) = []
  /\ execution_counts mixing_single_cell = seq 1 10.
Proof.
  apply (cell_raises_without_its_names _ _ cell_alp "ALP" initial).
  - simpl. tauto.
  - vm_compute. tauto.
  - reflexivity.
Defined.

(** ** X3: bindings persist *)

Lemma program_binds_each_name_once : NoDup (flat_map bound_names (concat program)).
Proof.
  apply NoDup_ListNoDup. vm_compute.
  repeat (constructor; [simpl; intuition discriminate|]). constructor.
Qed.

(** X3. The notebook binds no name twice, and a statement binds only the
    names on its left, whatever the library does: when the cells from
    position [i] on execute, every name bound by the first [i] cells keeps its
    value, and the only names whose value can differ afterwards are those
    the cells from [i] on bind. *)
Theorem bindings_persist (M : Libm) (L : Library) (i : nat) (σ σ' : state) (x : string) :
  run_cells (drop i program) σ = Some σ' ->
  In x (flat_map bound_names (concat (take i program))) ->
  env σ' !! x = env σ !! x
  /\ (forall y, env σ' !! y <> env σ !! y ->
        In y (flat_map bound_names (concat (drop i program))))
  /\ NoDup (flat_map bound_names (concat program)).
Proof.
  intros Hrun Hx.
  pose proof program_binds_each_name_once as Hnd.
  split; [|split; [|exact Hnd]].
  - rewrite <- (take_drop i program), concat_app, flat_map_app in Hnd.
    apply NoDup_app in Hnd as (_ & Hd & _).
    eapply run_cells_env; [exact Hrun|].
    intros Hin. apply (Hd x); by apply list_elem_of_In.
  - intros y Hy.
    destruct (in_dec string_dec y (flat_map bound_names (concat (drop i program))))
      as [Hin|Hin]; [done|].
    exfalso. apply Hy. by eapply run_cells_env.
Qed.

(** In the reference run, the last two cells execute; [np] is bound by the
    first. *)
Lemma bindings_persist_witness :
  env state_after_plot !! "np" = env state_before_run !! "np"
  /\ (forall y, env state_after_plot !! y <> env state_before_run !! y ->
        In y (flat_map bound_names (concat (drop 8 program))))
  /\ NoDup (flat_map bound_names (concat program)).
Proof.
  apply (bindings_persist GammaALPs.flat_power (@GammaALPs.model GammaALPs.blank_solver) 8).
  - vm_compute. reflexivity.
  - vm_compute. tauto.
Defined.

(** ** X4: the run cell prints the shape of [pa] *)

Lemma append_assoc (a b c : string) : (a +:+ b) +:+ c = a +:+ (b +:+ c).
Proof.
  induction a as [|x a IH]; [reflexivity|].
  change (String x ((a +:+ b) +:+ c) = String x (a +:+ (b +:+ c))). by f_equal.
Qed.

Lemma repr_shape sh :
  repr (VTuple (map (fun n => VInt (Z.of_nat n)) sh)) = Some (shape_text sh).
Proof.
  assert (Hm : mapM repr (map (fun n => VInt (Z.of_nat n)) sh) = Some (map decimal_text sh)).
  { induction sh as [|n sh IH]; [done|].
    cbn [map mapM]. rewrite IH. reflexivity. }
  cbn [repr]. change (mapM repr) with (mapM repr) in Hm.
  destruct sh as [|n [|k sh]]; [reflexivity|reflexivity|].
  etrans; [|reflexivity].
  remember (k :: sh) as sh'.
  simpl. simpl in Hm. rewrite Hm. subst sh'. reflexivity.
Qed.

Lemma exec_print_shape `{Libm} `{Library} σ pa :
  env σ !! "pa" = Some (VArray pa) -> env σ !! "print" = None ->
  exec print_stmt σ = Some (write (shape_text (shape pa) +:+ nl) σ).
Proof.
  intros Hpa Hprint. unfold print_stmt, exec. rewrite eval_call.
  assert (Hf : eval (EName "print") σ = Some (VBuiltin "print", σ)).
  { simpl. unfold lookup_name. by rewrite Hprint. }
  rewrite Hf. cbn [mbind option_bind eval_all].
  rewrite (eval_attr (EName "pa") "shape" (VArray pa)
             (VTuple (map (fun n => VInt (Z.of_nat n)) (shape pa))) σ σ);
    [|by apply eval_name|reflexivity].
  cbn [mbind option_bind eval_keywords call String.eqb Ascii.eqb Bool.eqb].
  unfold print_line. cbn [mapM str mbind option_bind fmap option_fmap option_map].
  change (match map (fun n => VInt (Z.of_nat n)) (shape pa) with [] => _ | _ => _ end)
    with (repr (VTuple (map (fun n => VInt (Z.of_nat n)) (shape pa)))).
  rewrite repr_shape. reflexivity.
Qed.

(** X4. The cell [px, py, pa = ml.run()], [print (pa.shape)]: if the
    assignment executes and binds [pa] to an array, in a state where [print]
    is not rebound, then the cell executes and differs from the assignment
    alone only by the text written to the standard output: the shape of
    [pa] as Python writes a tuple, and a line feed; for a two-dimensional
    array of [n] rows and [k] columns that text is (n, k). *)
Theorem run_cell_prints_the_shape (M : Libm) (L : Library) (σ σ2 : state) (pa : ndarray) :
  exec run_stmt σ = Some σ2 ->
  env σ2 !! "pa" = Some (VArray pa) ->
  env σ !! "print" = None ->
  exec_cell cell_run σ = Some (write (shape_text (shape pa) +:+ nl) σ2)
  /\ (forall n k, shape pa = [n; k] ->
        shape_text (shape pa) = "(" +:+ decimal_text n +:+ ", " +:+ decimal_text k +:+ ")").
Proof.
  intros Hrun Hpa Hprint. split.
  - unfold cell_run, exec_cell. rewrite Hrun. cbn [mbind option_bind].
    rewrite (exec_print_shape σ2 pa); [done|done|].
    rewrite (exec_env _ _ _ "print" Hrun); [done|].
    simpl. intuition discriminate.
  - intros n k ->. unfold shape_text. cbn [map join].
    by rewrite !append_assoc.
Qed.

(** In the reference run the assignment executes and [pa] has shape
    (1, 1000). *)
Lemma run_cell_prints_the_shape_witness :
  @exec_cell GammaALPs.flat_power (@GammaALPs.model GammaALPs.blank_solver)
    cell_run state_before_run
  = Some (write (shape_text (shape reference_pa) +:+ nl) state_after_run_stmt)
  /\ (forall n k, shape reference_pa = [n; k] ->
        shape_text (shape reference_pa) = "(" +:+ decimal_text n +:+ ", " +:+ decimal_text k +:+ ")").
Proof.
  apply (run_cell_prints_the_shape GammaALPs.flat_power
           (@GammaALPs.model GammaALPs.blank_solver) state_before_run state_after_run_stmt
           reference_pa); vm_compute; reflexivity.
Defined.

(** ** X5: the value of the override is a fixed point *)

(** [np.ones_like(a) * np.pi / 2.] is the constant array of the shape of [a]. *)
Lemma psin_value_constant a :
  psin_value a = NDArray (shape a) (F64s (repeat half_pi (count (data a)))).
Proof.
  unfold psin_value, map_floats, ones_like. cbn [shape data]. do 2 f_equal.
  destruct (data a) as [xs|zs]; cbn [as_floats count].
  - induction xs as [|x xs IH]; [done|]. cbn [map length repeat]. by rewrite IH.
  - induction zs as [|z zs IH]; [done|]. cbn [map length repeat]. by rewrite IH.
Qed.

Lemma psin_value_idempotent a : psin_value (psin_value a) = psin_value a.
Proof.
  rewrite (psin_value_constant (psin_value a)), psin_value_count, psin_value_shape.
  by rewrite <- psin_value_constant.
Qed.

(** X5. The value of the override is a fixed point.  In a state where
    [ml.modules[0]] is an object whose [psin] is an array [a], of either
    dtype, [np.ones_like(ml.modules[0].psin) * np.pi / 2.] evaluates, without
    changing the state, to the float64 array of the shape of [a] that holds
    [np.pi / 2.] as many times as [a] has elements.  In every state where
    [psin] is that array, as after a store that keeps it, the expression
    evaluates to the same array again, and the assignment hands the same
    array to the store: running the cell again asks for the same store. *)
Theorem psin_override_value_is_a_fixed_point (M : Libm) (L : Library)
    (σ : state) (lm l0 : nat) (rest : list value) (om o : object) (a : ndarray) :
  env σ !! "ml" = Some (VRef lm) ->
  env σ !! "np" = Some (VModule ["numpy"]) ->
  heap σ !! lm = Some om ->
  attrs om !! "modules" = Some (VList (VRef l0 :: rest)) ->
  heap σ !! l0 = Some o ->
  attrs o !! "psin" = Some (VArray a) ->
  exists a',
    eval psin_rhs σ = Some (VArray a', σ)
    /\ a' = NDArray (shape a) (F64s (repeat half_pi (count (data a))))
    /\ forall (σ1 : state) (lm1 l1 : nat) (rest1 : list value) (om1 o1 : object),
         env σ1 !! "ml" = Some (VRef lm1) ->
         env σ1 !! "np" = Some (VModule ["numpy"]) ->
         heap σ1 !! lm1 = Some om1 ->
         attrs om1 !! "modules" = Some (VList (VRef l1 :: rest1)) ->
         heap σ1 !! l1 = Some o1 ->
         attrs o1 !! "psin" = Some (VArray a') ->
         eval psin_rhs σ1 = Some (VArray a', σ1)
         /\ exec psin_override σ1
            = (h ← store_attribute l1 "psin" (VArray a') (heap σ1);
               Some (with_heap h σ1)).
Proof.
  intros Hml Hnp Hom Hmods Ho Hpsin.
  exists (psin_value a).
  split; [by eapply eval_psin_value|].
  split; [apply psin_value_constant|].
  intros σ1 lm1 l1 rest1 om1 o1 Hml1 Hnp1 Hom1 Hmods1 Ho1 Hpsin1. split.
  - pose proof (eval_psin_value σ1 lm1 l1 rest1 om1 o1 Hnp1 Hml1 Hom1 Hmods1 Ho1
                  (psin_value a) Hpsin1) as He.
    by rewrite psin_value_idempotent in He.
  - pose proof (exec_psin_override σ1 lm1 l1 rest1 om1 o1 Hnp1 Hml1 Hom1 Hmods1 Ho1
                  (psin_value a) Hpsin1) as He.
    by rewrite psin_value_idempotent in He.
Qed.

(** The hypotheses hold in the reference run, before the override. *)
Lemma psin_override_value_is_a_fixed_point_witness :
  exists a',
    @eval GammaALPs.flat_power (@GammaALPs.model GammaALPs.blank_solver)
      psin_rhs state_before_psin = Some (VArray a', state_before_psin)
    /\ a' = NDArray (shape reference_psin)
              (F64s (repeat half_pi (count (data reference_psin))))
    /\ forall (σ1 : state) (lm1 l1 : nat) (rest1 : list value) (om1 o1 : object),
         env σ1 !! "ml" = Some (VRef lm1) ->
         env σ1 !! "np" = Some (VModule ["numpy"]) ->
         heap σ1 !! lm1 = Some om1 ->
         attrs om1 !! "modules" = Some (VList (VRef l1 :: rest1)) ->
         heap σ1 !! l1 = Some o1 ->
         attrs o1 !! "psin" = Some (VArray a') ->
         @eval GammaALPs.flat_power (@GammaALPs.model GammaALPs.blank_solver)
           psin_rhs σ1 = Some (VArray a', σ1)
         /\ @exec GammaALPs.flat_power (@GammaALPs.model GammaALPs.blank_solver)
              psin_override σ1
            = (h ← @store_attribute (@GammaALPs.model GammaALPs.blank_solver) l1 "psin"
                     (VArray a') (heap σ1);
               Some (with_heap h σ1)).
Proof.
  eapply (psin_override_value_is_a_fixed_point _ _ state_before_psin 2 3 [] _ _ reference_psin);
    vm_compute; reflexivity.
Defined.

(** ** X6: the override needs a module *)

Lemma eval_attr_raises `{Libm} `{Library} e a σ :
  eval e σ = None -> eval (EAttr e a) σ = None.
Proof. intros He. cbn [eval]. by rewrite He. Qed.

Lemma eval_binop_raises `{Libm} `{Library} op l r σ :
  eval l σ = None -> eval (EBinOp op l r) σ = None.
Proof. intros He. cbn [eval]. by rewrite He. Qed.

(** X6. The override of [psin] needs a propagation module: in a state where
    [ml.modules] is the empty list, as when the cell that calls
    [ml.add_propagation] was not run, [ml.modules[0]] raises, the assignment
    raises, and so does every run that starts with its cell. *)
Theorem psin_override_needs_a_module (M : Libm) (L : Library)
    (σ : state) (lm : nat) (om : object) :
  env σ !! "ml" = Some (VRef lm) ->
  env σ !! "np" = Some (VModule ["numpy"]) ->
  heap σ !! lm = Some om ->
  attrs om !! "modules" = Some (VList []) ->
  eval module0 σ = None
  /\ exec psin_override σ = None
  /\ forall later, run_cells (cell_psin :: later) σ = None.
Proof.
  intros Hml Hnp Hom Hmods.
  assert (Hm : eval module0 σ = None).
  { unfold module0. cbn [eval].
    rewrite (eval_attr (EName "ml") "modules" (VRef lm) (VList []) σ σ);
      [reflexivity|by apply eval_name|by eapply getattr_object]. }
  assert (Hex : exec psin_override σ = None).
  { unfold psin_override, exec.
    rewrite eval_binop_raises; [reflexivity|].
    apply eval_binop_raises.
    rewrite eval_call, (eval_np_function σ Hnp) by done.
    cbn [mbind option_bind eval_all].
    by rewrite (eval_attr_raises module0 "psin" σ Hm). }
  split; [done|]. split; [done|].
  intros later. unfold cell_psin. cbn [run_cells exec_cell]. by rewrite Hex.
Qed.

(** In the reference run, before [ml.add_propagation], the list of modules
    is empty. *)
Lemma psin_override_needs_a_module_witness :
  @eval GammaALPs.flat_power (@GammaALPs.model GammaALPs.blank_solver)
    module0 state_before_add = None
  /\ @exec GammaALPs.flat_power (@GammaALPs.model GammaALPs.blank_solver)
       psin_override state_before_add = None
  /\ forall later,
       @run_cells GammaALPs.flat_power (@GammaALPs.model GammaALPs.blank_solver)
         (cell_psin :: later) state_before_add = None.
Proof.
  eapply (psin_override_needs_a_module _ _ state_before_add 2); vm_compute; reflexivity.
Defined.

(** ** X8: the numpy cells *)

Lemma bind_twice x v w σ : bind x v (bind x w σ) = bind x v σ.
Proof. unfold bind. cbn [env heap stdout figure]. by rewrite insert_insert_eq. Qed.

Lemma bind_commute x y v w σ : x <> y -> bind x v (bind y w σ) = bind y w (bind x v σ).
Proof. intros Hne. unfold bind. cbn [env heap stdout figure]. by rewrite insert_insert_ne. Qed.

Lemma bind_other x y v σ : x <> y -> env (bind y v σ) !! x = env σ !! x.
Proof. intros Hne. rewrite env_bind. by apply lookup_insert_ne. Qed.

(** X8. The cells [EGeV = np.logspace(0.,8.,1000)] and
    [pin = np.diag((1., 0., 0.))] involve numpy only: in a state where [np]
    is numpy they execute whatever the library, each binds its name and
    changes nothing else, executing either a second time changes nothing,
    and their order is immaterial.  [EGeV] is a well-formed float64 array
    of 1000 elements, [pin] one of 3 by 3. *)
Theorem numpy_cells_commute (M : Libm) (L : Library) (σ : state) :
  env σ !! "np" = Some (VModule ["numpy"]) ->
  exists egev pin,
    exec_cell (cell_energies ++ cell_pin) σ
    = Some (bind "pin" (VArray pin) (bind "EGeV" (VArray egev) σ))
    /\ exec_cell (cell_pin ++ cell_energies) σ = exec_cell (cell_energies ++ cell_pin) σ
    /\ exec_cell (cell_energies ++ cell_energies) σ = exec_cell cell_energies σ
    /\ exec_cell (cell_pin ++ cell_pin) σ = exec_cell cell_pin σ
    /\ shape egev = [1000] /\ dtype_of egev = Float64 /\ well_formed egev
    /\ shape pin = [3; 3] /\ dtype_of pin = Float64 /\ well_formed pin.
Proof.
  intros Hnp.
  set (egev := logspace power F64.zero (F64.of_Z 8) 1000).
  set (pin := NDArray [3; 3] (F64s (diag_matrix F64.zero [F64.one; F64.zero; F64.zero]))).
  assert (He : forall σ', env σ' !! "np" = Some (VModule ["numpy"]) ->
            exec_cell cell_energies σ' = Some (bind "EGeV" (VArray egev) σ'))
    by (intros σ' H'; by apply exec_energies).
  assert (Hp : forall σ', env σ' !! "np" = Some (VModule ["numpy"]) ->
            exec_cell cell_pin σ' = Some (bind "pin" (VArray pin) σ'))
    by (intros σ' H'; by apply exec_pin).
  assert (Hnp1 : forall x v, x <> "np" -> env (bind x v σ) !! "np" = Some (VModule ["numpy"])).
  { intros x v Hx. by rewrite bind_other. }
  exists egev, pin.
  rewrite !exec_cell_app, (He σ Hnp), (Hp σ Hnp). cbn [mbind option_bind].
  rewrite (Hp _ (Hnp1 "EGeV" _ ltac:(done))), (He _ (Hnp1 "pin" _ ltac:(done))).
  rewrite (He _ (Hnp1 "EGeV" _ ltac:(done))), (Hp _ (Hnp1 "pin" _ ltac:(done))).
  rewrite !bind_twice.
  split; [done|].
  split; [by rewrite bind_commute|].
  split; [done|]. split; [done|].
  split; [reflexivity|]. split; [reflexivity|].
  split; [apply logspace_well_formed|].
  repeat split; reflexivity.
Qed.

(** After the import cell, [np] is numpy. *)
Lemma numpy_cells_commute_witness :
  exists egev pin,
    @exec_cell GammaALPs.flat_power (@GammaALPs.model GammaALPs.blank_solver)
      (cell_energies ++ cell_pin) state_after_imports
    = Some (bind "pin" (VArray pin) (bind "EGeV" (VArray egev) state_after_imports))
    /\ @exec_cell GammaALPs.flat_power (@GammaALPs.model GammaALPs.blank_solver)
         (cell_pin ++ cell_energies) state_after_imports
       = @exec_cell GammaALPs.flat_power (@GammaALPs.model GammaALPs.blank_solver)
           (cell_energies ++ cell_pin) state_after_imports
    /\ @exec_cell GammaALPs.flat_power (@GammaALPs.model GammaALPs.blank_solver)
         (cell_energies ++ cell_energies) state_after_imports
       = @exec_cell GammaALPs.flat_power (@GammaALPs.model GammaALPs.blank_solver)
           cell_energies state_after_imports
    /\ @exec_cell GammaALPs.flat_power (@GammaALPs.model GammaALPs.blank_solver)
         (cell_pin ++ cell_pin) state_after_imports
       = @exec_cell GammaALPs.flat_power (@GammaALPs.model GammaALPs.blank_solver)
           cell_pin state_after_imports
    /\ shape egev = [1000] /\ dtype_of egev = Float64 /\ well_formed egev
    /\ shape pin = [3; 3] /\ dtype_of pin = Float64 /\ well_formed pin.
Proof.
  apply (numpy_cells_commute _ _ state_after_imports). vm_compute. reflexivity.
Defined.

(** ** X9: what [ModuleList] receives *)

(** *** The library calls of the first cells *)

Section LibraryCalls.

Context `{Libm} `{Library}.

Lemma call_library m f args kwargs σ :
  m <> ["numpy"] -> m <> pyplot ->
  call (VGlobal m f) args kwargs σ
  = '(v, h) ← call_function m f args kwargs (heap σ); Some (v, with_heap h σ).
Proof.
  intros H1 H2. unfold call.
  rewrite bool_decide_eq_false_2 by done. by rewrite bool_decide_eq_false_2.
Qed.

(** [m, g = 10., 3.] and [alp = ALP(m, g)]. *)
Lemma exec_alp σ :
  env σ !! "ALP" = Some (VGlobal GammaALPs.core "ALP") ->
  exec_cell cell_alp σ
  = '(v, h) ← call_function GammaALPs.core "ALP" [VFloat F64.ten; VFloat (F64.of_Z 3)] []
                (heap σ);
    Some (bind "alp" v
            (with_heap h (bind "g" (VFloat (F64.of_Z 3)) (bind "m" (VFloat F64.ten) σ)))).
Proof.
  intros HALP. unfold cell_alp. cbn [exec_cell].
  assert (H1 : exec (SAssign (ETuple false [EName "m"; EName "g"])
                       (ETuple false [ENum "10."; ENum "3."])) σ
               = Some (bind "g" (VFloat (F64.of_Z 3)) (bind "m" (VFloat F64.ten) σ)))
    by reflexivity.
  rewrite H1. cbn [mbind option_bind]. unfold exec. rewrite eval_call.
  rewrite (eval_name "ALP" (VGlobal GammaALPs.core "ALP"));
    [|by rewrite !bind_other].
  cbn [mbind option_bind eval_all].
  rewrite (eval_name "m" (VFloat F64.ten)); [|by rewrite bind_other, env_bind, lookup_insert_eq].
  cbn [mbind option_bind].
  rewrite (eval_name "g" (VFloat (F64.of_Z 3))); [|by rewrite env_bind, lookup_insert_eq].
  cbn [mbind option_bind eval_keywords].
  rewrite call_library by done.
  destruct (call_function _ _ _ _ _) as [[v h]|]; reflexivity.
Qed.

(** [src = Source(z=0., l=0., b=0.)]. *)
Lemma exec_source σ :
  env σ !! "Source" = Some (VGlobal GammaALPs.core "Source") ->
  exec_cell cell_source σ
  = '(v, h) ← call_function GammaALPs.core "Source" []
                [("z", VFloat F64.zero); ("l", VFloat F64.zero); ("b", VFloat F64.zero)]
                (heap σ);
    Some (bind "src" v (with_heap h σ)).
Proof.
  intros HS. unfold cell_source. cbn [exec_cell]. unfold exec. rewrite eval_call.
  rewrite (eval_name "Source" (VGlobal GammaALPs.core "Source")) by done.
  cbn [mbind option_bind eval_all].
  assert (Hk : eval_keywords [("z", ENum "0."); ("l", ENum "0."); ("b", ENum "0.")] σ
               = Some ([("z", VFloat F64.zero); ("l", VFloat F64.zero); ("b", VFloat F64.zero)],
                       σ)) by reflexivity.
  rewrite Hk. cbn [mbind option_bind].
  rewrite call_library by done.
  destruct (call_function _ _ _ _ _) as [[v h]|]; reflexivity.
Qed.

(** [ml = ModuleList(alp, src, pin=pin, EGeV=EGeV, seed=0)]. *)
Lemma exec_module_list σ alp src pin egev :
  env σ !! "ModuleList" = Some (VGlobal GammaALPs.core "ModuleList") ->
  env σ !! "alp" = Some alp -> env σ !! "src" = Some src ->
  env σ !! "pin" = Some pin -> env σ !! "EGeV" = Some egev ->
  exec_cell cell_module_list σ
  = '(v, h) ← call_function GammaALPs.core "ModuleList" [alp; src]
                [("pin", pin); ("EGeV", egev); ("seed", VInt 0)] (heap σ);
    Some (bind "ml" v (with_heap h σ)).
Proof.
  intros HML Halp Hsrc Hpin Hegev. unfold cell_module_list. cbn [exec_cell].
  unfold exec. rewrite eval_call.
  rewrite (eval_name "ModuleList" _ _ HML). cbn [mbind option_bind eval_all].
  rewrite (eval_name "alp" _ _ Halp). cbn [mbind option_bind].
  rewrite (eval_name "src" _ _ Hsrc). cbn [mbind option_bind eval_keywords].
  rewrite (eval_name "pin" _ _ Hpin). cbn [mbind option_bind].
  rewrite (eval_name "EGeV" _ _ Hegev). cbn [mbind option_bind].
  assert (Hseed : eval (ENum "0") σ = Some (VInt 0, σ)) by reflexivity.
  rewrite Hseed. cbn [mbind option_bind].
  rewrite call_library by done.
  destruct (call_function _ _ _ _ _) as [[v h]|]; reflexivity.
Qed.

End LibraryCalls.

Lemma imported_lookup e x v :
  In (x, v) [("Source", VGlobal GammaALPs.core "Source"); ("ALP", VGlobal GammaALPs.core "ALP");
             ("ModuleList", VGlobal GammaALPs.core "ModuleList");
             ("EminGeV", VGlobal GammaALPs.transfer "EminGeV");
             ("EmaxGeV", VGlobal GammaALPs.transfer "EmaxGeV");
             ("np", VModule ["numpy"]); ("plt", VModule pyplot);
             ("c", VGlobal ["astropy"] "constants")] ->
  imported e !! x = Some v.
Proof.
  intros Hx. unfold imported. simpl in Hx.
  repeat (destruct Hx as [[= <- <-]|Hx]; [by simplify_map_eq|]). destruct Hx.
Qed.

Ltac solve_env :=
  cbn [env heap bind with_heap write draw];
  rewrite ?lookup_insert_ne by done;
  first [ by apply lookup_insert_eq | by apply imported_lookup; simpl; tauto | done ].

(** X9. What [ModuleList] receives.  Whatever the library returns, if the
    first five cells execute, from any state, then the five modules were
    imported and the library was called exactly twice, on the objects as
    the imports left them: [ALP] with the floats [10.] and [3.] and then
    [Source] with [z], [l] and [b] equal to [0.]; and the sixth cell is the
    call of
    [ModuleList] with the two returned values, with the matrix of
    [np.diag((1., 0., 0.))] as [pin], with the 1000 energies of
    [np.logspace(0.,8.,1000)] as [EGeV], and with the integer 0 as [seed];
    its result is bound to [ml]. *)
Theorem module_list_receives_the_arrays (M : Libm) (L : Library) (σ0 σ5 : state) :
  run_cells (take 5 program) σ0 = Some σ5 ->
  exists h0 alp src h1,
    imports_heap (heap σ0) = Some h0
    /\ call_function GammaALPs.core "ALP" [VFloat F64.ten; VFloat (F64.of_Z 3)] [] h0
       = Some (alp, h1)
    /\ call_function GammaALPs.core "Source" []
         [("z", VFloat F64.zero); ("l", VFloat F64.zero); ("b", VFloat F64.zero)] h1
       = Some (src, heap σ5)
    /\ exec_cell cell_module_list σ5
       = '(v, h) ← call_function GammaALPs.core "ModuleList" [alp; src]
                     [("pin", VArray (NDArray [3; 3]
                         (F64s (diag_matrix F64.zero [F64.one; F64.zero; F64.zero]))));
                      ("EGeV", VArray (logspace power F64.zero (F64.of_Z 8) 1000));
                      ("seed", VInt 0)] (heap σ5);
         Some (bind "ml" v (with_heap h σ5)).
Proof.
  intros Hrun.
  change (take 5 program)
    with [cell_imports; cell_alp; cell_energies; cell_pin; cell_source] in Hrun.
  cbn [run_cells] in Hrun. rewrite exec_imports in Hrun.
  destruct (imports_heap (heap σ0)) as [h0|] eqn:Eimp; [|discriminate Hrun].
  cbn [mbind option_bind] in Hrun.
  rewrite exec_alp in Hrun by solve_env.
  cbn [heap] in Hrun.
  destruct (call_function GammaALPs.core "ALP" _ _ _) as [[alp h1]|] eqn:Ealp;
    [|discriminate Hrun].
  cbn [mbind option_bind] in Hrun.
  rewrite exec_energies in Hrun by solve_env.
  cbn [mbind option_bind] in Hrun.
  rewrite exec_pin in Hrun by solve_env.
  cbn [mbind option_bind] in Hrun.
  rewrite exec_source in Hrun by solve_env.
  cbn [heap bind with_heap] in Hrun.
  destruct (call_function GammaALPs.core "Source" _ _ _) as [[src h5]|] eqn:Esrc;
    [|discriminate Hrun].
  cbn [mbind option_bind] in Hrun. injection Hrun as <-.
  exists h0, alp, src, h1. split; [done|]. split; [done|]. split; [done|].
  apply exec_module_list; solve_env.
Qed.

(** The first five cells execute in the reference run. *)
Lemma module_list_receives_the_arrays_witness :
  exists h0 alp src h1,
    @imports_heap (@GammaALPs.model GammaALPs.blank_solver) (heap initial) = Some h0
    /\ @call_function (@GammaALPs.model GammaALPs.blank_solver) GammaALPs.core "ALP"
         [VFloat F64.ten; VFloat (F64.of_Z 3)] [] h0
       = Some (alp, h1)
    /\ @call_function (@GammaALPs.model GammaALPs.blank_solver) GammaALPs.core "Source" []
         [("z", VFloat F64.zero); ("l", VFloat F64.zero); ("b", VFloat F64.zero)] h1
       = Some (src, heap state_before_module_list)
    /\ @exec_cell GammaALPs.flat_power (@GammaALPs.model GammaALPs.blank_solver)
         cell_module_list state_before_module_list
       = '(v, h) ← @call_function (@GammaALPs.model GammaALPs.blank_solver)
                     GammaALPs.core "ModuleList" [alp; src]
                     [("pin", VArray (NDArray [3; 3]
                         (F64s (diag_matrix F64.zero [F64.one; F64.zero; F64.zero]))));
                      ("EGeV", VArray (logspace (@power GammaALPs.flat_power)
                                         F64.zero (F64.of_Z 8) 1000));
                      ("seed", VInt 0)] (heap state_before_module_list);
         Some (bind "ml" v (with_heap h state_before_module_list)).
Proof.
  apply (module_list_receives_the_arrays GammaALPs.flat_power
           (@GammaALPs.model GammaALPs.blank_solver) initial state_before_module_list).
  vm_compute. reflexivity.
Defined.

(** ** X7: the plotting cell *)

(** *** Expressions without calls *)

Lemma forallb_flat_map {A B} (f : B -> bool) (g : A -> list B) l :
  forallb f (flat_map g l) = forallb (fun x => forallb f (g x)) l.
Proof. induction l as [|x l IH]; [done|]. simpl. by rewrite forallb_app, IH. Qed.

Section CallFree.

Context `{Libm} `{Library}.

Lemma eval_all_call_free_aux es :
  Forall (fun e => forall σ v σ', call_free e = true -> eval e σ = Some (v, σ') -> σ' = σ) es ->
  forall σ vs σ', forallb call_free es = true -> eval_all es σ = Some (vs, σ') -> σ' = σ.
Proof.
  induction 1 as [|e es He _ IH]; intros σ vs σ' Hf Hev; simpl in Hev.
  - by injection Hev as <- <-.
  - simpl in Hf. apply andb_prop in Hf as [Hf1 Hf2].
    destruct (eval e σ) as [[v σ1]|] eqn:E1; [|discriminate Hev].
    cbn [mbind option_bind] in Hev.
    destruct (eval_all es σ1) as [[vs' σ2]|] eqn:E2; [|discriminate Hev].
    injection Hev as <- <-. rewrite (IH _ _ _ Hf2 E2). eauto.
Qed.

(** Evaluating an expression in which nothing is called leaves the state
    as it is. *)
Lemma eval_call_free e :
  forall σ v σ', call_free e = true -> eval e σ = Some (v, σ') -> σ' = σ.
Proof.
  induction e as [l|s|y|e a IH|e i IHe IHi|f args kwargs IHf IHa IHk|p elts IHe|op l r IHl IHr]
    using expr_ind_nested; intros σ v σ' Hf Hev.
  - simpl in Hev. destruct (literal l); [|discriminate Hev]. by injection Hev as <- <-.
  - by injection Hev as <- <-.
  - simpl in Hev. destruct (lookup_name y σ); [|discriminate Hev]. by injection Hev as <- <-.
  - assert (Hf' : call_free e = true) by exact Hf.
    simpl in Hev. destruct (eval e σ) as [[b σ1]|] eqn:E; [|discriminate Hev].
    cbn [mbind option_bind] in Hev.
    destruct (getattr (heap σ1) b a); [|discriminate Hev]. injection Hev as <- <-. eauto.
  - unfold call_free in Hf. cbn [subexprs forallb is_call negb andb] in Hf.
    rewrite forallb_app in Hf. apply andb_prop in Hf as [Hf1 Hf2].
    simpl in Hev. destruct (eval e σ) as [[b σ1]|] eqn:E1; [|discriminate Hev].
    cbn [mbind option_bind] in Hev.
    destruct (eval i σ1) as [[k σ2]|] eqn:E2; [|discriminate Hev].
    cbn [mbind option_bind] in Hev.
    destruct (getitem b k); [|discriminate Hev]. injection Hev as <- <-.
    rewrite (IHi _ _ _ Hf2 E2). eauto.
  - discriminate Hf.
  - unfold call_free in Hf. cbn [subexprs forallb is_call negb andb] in Hf.
    rewrite forallb_flat_map in Hf.
    rewrite eval_tuple in Hev.
    destruct (eval_all elts σ) as [[vs σ1]|] eqn:E; [|discriminate Hev].
    injection Hev as <- <-. by eapply eval_all_call_free_aux.
  - unfold call_free in Hf. cbn [subexprs forallb is_call negb andb] in Hf.
    rewrite forallb_app in Hf. apply andb_prop in Hf as [Hf1 Hf2].
    simpl in Hev. destruct (eval l σ) as [[a σ1]|] eqn:E1; [|discriminate Hev].
    cbn [mbind option_bind] in Hev.
    destruct (eval r σ1) as [[b σ2]|] eqn:E2; [|discriminate Hev].
    cbn [mbind option_bind] in Hev.
    destruct (binop_value op a b); [|discriminate Hev]. injection Hev as <- <-.
    rewrite (IHr _ _ _ Hf2 E2). eauto.
Qed.

Lemma eval_keywords_call_free kws :
  forall σ kvs σ', forallb (fun kw : string * expr => call_free kw.2) kws = true ->
    eval_keywords kws σ = Some (kvs, σ') -> σ' = σ /\ map fst kvs = map fst kws.
Proof.
  induction kws as [|[k e] kws IH]; intros σ kvs σ' Hf Hev; simpl in Hev.
  - by injection Hev as <- <-.
  - simpl in Hf. apply andb_prop in Hf as [Hf1 Hf2].
    destruct (eval e σ) as [[v σ1]|] eqn:E1; [|discriminate Hev].
    cbn [mbind option_bind] in Hev.
    destruct (eval_keywords kws σ1) as [[kvs' σ2]|] eqn:E2; [|discriminate Hev].
    injection Hev as <- <-. destruct (IH _ _ _ Hf2 E2) as [-> Hk].
    split; [by eapply eval_call_free|]. simpl. by rewrite Hk.
Qed.

Lemma eval_num l v σ : literal l = Some v -> eval (ENum l) σ = Some (v, σ).
Proof. intros Hl. cbn [eval]. by rewrite Hl. Qed.

(** A call of a pyplot function evaluates its arguments and is recorded. *)
Lemma exec_plt cmd args kwargs σ σ' :
  env σ !! "plt" = Some (VModule pyplot) ->
  exec (SExpr (ECall (EAttr (EName "plt") cmd) args kwargs)) σ = Some σ' ->
  exists avs σ1 kvs σ2,
    eval_all args σ = Some (avs, σ1) /\ eval_keywords kwargs σ1 = Some (kvs, σ2)
    /\ σ' = draw (Drawing cmd avs kvs) σ2.
Proof.
  intros Hplt Hex. unfold exec in Hex. rewrite eval_call in Hex.
  rewrite (eval_attr (EName "plt") cmd (VModule pyplot) (VGlobal pyplot cmd) σ σ) in Hex;
    [|by apply eval_name|reflexivity].
  cbn [mbind option_bind] in Hex.
  destruct (eval_all args σ) as [[avs σ1]|] eqn:Ea; [|discriminate Hex].
  cbn [mbind option_bind] in Hex.
  destruct (eval_keywords kwargs σ1) as [[kvs σ2]|] eqn:Ek; [|discriminate Hex].
  cbn [mbind option_bind] in Hex.
  change (call (VGlobal pyplot cmd) avs kvs σ2)
    with (Some (VNone, draw (Drawing cmd avs kvs) σ2)) in Hex.
  injection Hex as <-. by exists avs, σ1, kvs, σ2.
Qed.

(** A call of a library function whose keyword arguments call nothing. *)
Lemma eval_library_call f m kws σ v σ' :
  env σ !! f = Some (VGlobal m f) -> m <> ["numpy"] -> m <> pyplot ->
  forallb (fun kw : string * expr => call_free kw.2) kws = true ->
  eval (ECall (EName f) [] kws) σ = Some (v, σ') ->
  exists kvs h,
    map fst kvs = map fst kws
    /\ call_function m f [] kvs (heap σ) = Some (v, h) /\ σ' = with_heap h σ.
Proof.
  intros Hf Hm1 Hm2 Hk Hev. rewrite eval_call, (eval_name f _ _ Hf) in Hev.
  cbn [mbind option_bind eval_all] in Hev.
  destruct (eval_keywords kws σ) as [[kvs σ1]|] eqn:Ek; [|discriminate Hev].
  cbn [mbind option_bind] in Hev.
  destruct (eval_keywords_call_free _ _ _ _ Hk Ek) as [-> Hkeys].
  rewrite call_library in Hev by done.
  destruct (call_function m f [] kvs (heap σ)) as [[r h]|] eqn:Ec; [|discriminate Hev].
  injection Hev as <- <-. by exists kvs, h.
Qed.

End CallFree.

Lemma eval_name_inv `{Libm} `{Library} x v σ σ' :
  x <> "print" -> eval (EName x) σ = Some (v, σ') -> env σ !! x = Some v /\ σ' = σ.
Proof.
  intros Hx Hev. cbn [eval] in Hev. unfold lookup_name in Hev.
  destruct (env σ !! x) as [w|].
  - by injection Hev as <- <-.
  - assert (Hb : existsb (String.eqb x) builtins = false).
    { cbn [existsb builtins]. rewrite orb_false_r. by apply String.eqb_neq. }
    rewrite Hb in Hev. discriminate Hev.
Qed.

(** X7. The plotting cell, in a state where [plt], [EminGeV] and [EmaxGeV]
    are as the import cell binds them: if it executes, then [EGeV] and [pa]
    are bound and [pa[0]] exists; the library was called exactly twice,
    [EminGeV] with the four keywords [m_neV], [g11], [BmuG], [n_cm3] and no
    positional argument, then [EmaxGeV] with the two keywords [g11], [BmuG];
    and the state differs only by the objects, as the library left them, and
    by five drawing commands added to the figure, in this order: [semilogx]
    of [pa[0]] against [EGeV] with [lw=2], an [axvline] at each of the two
    returned energies with [lw=1.], dashed and dash-dotted, in black, and
    the two axis labels.  No name is bound and nothing is printed. *)
Theorem plot_cell_draws_five_commands (M : Libm) (L : Library) (σ σ' : state) :
  env σ !! "plt" = Some (VModule pyplot) ->
  env σ !! "EminGeV" = Some (VGlobal GammaALPs.transfer "EminGeV") ->
  env σ !! "EmaxGeV" = Some (VGlobal GammaALPs.transfer "EmaxGeV") ->
  exec_cell cell_plot σ = Some σ' ->
  exists egev pa row lo hi kv1 kv2 h1 h2,
    env σ !! "EGeV" = Some egev /\ env σ !! "pa" = Some pa
    /\ getitem pa (VInt 0) = Some row
    /\ map fst kv1 = ["m_neV"; "g11"; "BmuG"; "n_cm3"]
    /\ call_function GammaALPs.transfer "EminGeV" [] kv1 (heap σ) = Some (lo, h1)
    /\ map fst kv2 = ["g11"; "BmuG"]
    /\ call_function GammaALPs.transfer "EmaxGeV" [] kv2 h1 = Some (hi, h2)
    /\ σ' = State (env σ) h2 (stdout σ)
              (figure σ ++
               [Drawing "semilogx" [egev; row] [("lw", VInt 2)];
                Drawing "axvline" [lo]
                  [("lw", VFloat F64.one); ("ls", VStr "--"); ("color", VStr "k")];
                Drawing "axvline" [hi]
                  [("lw", VFloat F64.one); ("ls", VStr "-."); ("color", VStr "k")];
                Drawing "xlabel" [VStr "Energy (GeV)"] [];
                Drawing "ylabel" [VStr "$P_{a\gamma}$"] []]).
Proof.
  intros Hplt Hmin Hmax Hex. unfold cell_plot in Hex. cbn [exec_cell] in Hex.
  (* semilogx *)
  match type of Hex with
  | exec ?s σ ≫= _ = _ => destruct (exec s σ) as [σ1|] eqn:E1; [|discriminate Hex]
  end.
  cbn [mbind option_bind] in Hex.
  apply exec_plt in E1 as (avs & σa & kvs & σb & Ha & Hk & ->); [|done].
  cbn [eval_all] in Ha.
  destruct (eval (EName "EGeV") σ) as [[egev σx]|] eqn:Eg; [|discriminate Ha].
  apply eval_name_inv in Eg as [Hegev ->]; [|done].
  cbn [mbind option_bind] in Ha.
  destruct (eval (ESubscript (EName "pa") (ENum "0")) σ) as [[row σx]|] eqn:Er;
    [|discriminate Ha].
  injection Ha as <- <-.
  pose proof (eval_call_free (ESubscript (EName "pa") (ENum "0")) _ _ _ eq_refl Er) as ->.
  cbn [eval] in Er.
  change (lookup_name "pa" σ ≫= (fun v => Some (v, σ)))
    with (eval (EName "pa") σ) in Er.
  destruct (eval (EName "pa") σ) as [[pa σx]|] eqn:Ep; [|discriminate Er].
  apply eval_name_inv in Ep as [Hpa ->]; [|done].
  cbn [mbind option_bind] in Er.
  assert (Hzero : literal "0" = Some (VInt 0)) by reflexivity.
  rewrite Hzero in Er. cbn [mbind option_bind] in Er.
  destruct (getitem pa (VInt 0)) as [r|] eqn:Hrow; [|discriminate Er].
  injection Er as ->.
  cbn [eval_keywords] in Hk. rewrite (eval_num "2" (VInt 2)) in Hk by reflexivity.
  injection Hk as <- <-.
  (* the first axvline *)
  match type of Hex with
  | exec ?s ?σ1 ≫= _ = _ => destruct (exec s σ1) as [σ2|] eqn:E2; [|discriminate Hex]
  end.
  cbn [mbind option_bind] in Hex.
  apply exec_plt in E2 as (avs & σa & kvs & σb & Ha & Hk & ->); [|done].
  cbn [eval_all] in Ha.
  match type of Ha with
  | eval ?e ?s ≫= _ = _ => destruct (eval e s) as [[lo σx]|] eqn:El; [|discriminate Ha]
  end.
  injection Ha as <- <-.
  apply (eval_library_call "EminGeV" GammaALPs.transfer) in El
    as (kv1 & h1 & Hkeys1 & Hcall1 & ->); [|done..].
  cbn [eval_keywords] in Hk.
  rewrite (eval_num "1." (VFloat F64.one)) in Hk by reflexivity.
  injection Hk as <- <-.
  (* the second axvline *)
  match type of Hex with
  | exec ?s ?σ1 ≫= _ = _ => destruct (exec s σ1) as [σ3|] eqn:E3; [|discriminate Hex]
  end.
  cbn [mbind option_bind] in Hex.
  apply exec_plt in E3 as (avs & σa & kvs & σb & Ha & Hk & ->); [|done].
  cbn [eval_all] in Ha.
  match type of Ha with
  | eval ?e ?s ≫= _ = _ => destruct (eval e s) as [[hi σx]|] eqn:Eh; [|discriminate Ha]
  end.
  injection Ha as <- <-.
  apply (eval_library_call "EmaxGeV" GammaALPs.transfer) in Eh
    as (kv2 & h2 & Hkeys2 & Hcall2 & ->); [|done..].
  cbn [eval_keywords] in Hk.
  rewrite (eval_num "1." (VFloat F64.one)) in Hk by reflexivity.
  injection Hk as <- <-.
  (* the labels *)
  match type of Hex with
  | exec ?s ?σ1 ≫= _ = _ => destruct (exec s σ1) as [σ4|] eqn:E4; [|discriminate Hex]
  end.
  cbn [mbind option_bind] in Hex.
  apply exec_plt in E4 as (avs & σa & kvs & σb & Ha & Hk & ->); [|done].
  injection Ha as <- <-. injection Hk as <- <-.
  match type of Hex with
  | exec ?s ?σ1 ≫= _ = _ => destruct (exec s σ1) as [σ5|] eqn:E5; [|discriminate Hex]
  end.
  cbn [mbind option_bind] in Hex.
  apply exec_plt in E5 as (avs & σa & kvs & σb & Ha & Hk & ->); [|done].
  injection Ha as <- <-. injection Hk as <- <-.
  injection Hex as <-.
  exists egev, pa, row, lo, hi, kv1, kv2, h1, h2.
  do 7 (split; [done|]).
  unfold draw, with_heap. cbn [env heap stdout figure]. by rewrite <- !app_assoc.
Qed.

(** The plotting cell executes in the reference run. *)
Lemma plot_cell_draws_five_commands_witness :
  exists egev pa row lo hi kv1 kv2 h1 h2,
    env state_before_plot !! "EGeV" = Some egev /\ env state_before_plot !! "pa" = Some pa
    /\ getitem pa (VInt 0) = Some row
    /\ map fst kv1 = ["m_neV"; "g11"; "BmuG"; "n_cm3"]
    /\ @call_function (@GammaALPs.model GammaALPs.blank_solver)
         GammaALPs.transfer "EminGeV" [] kv1 (heap state_before_plot) = Some (lo, h1)
    /\ map fst kv2 = ["g11"; "BmuG"]
    /\ @call_function (@GammaALPs.model GammaALPs.blank_solver)
         GammaALPs.transfer "EmaxGeV" [] kv2 h1 = Some (hi, h2)
    /\ state_after_plot
       = State (env state_before_plot) h2 (stdout state_before_plot)
              (figure state_before_plot ++
               [Drawing "semilogx" [egev; row] [("lw", VInt 2)];
                Drawing "axvline" [lo]
                  [("lw", VFloat F64.one); ("ls", VStr "--"); ("color", VStr "k")];
                Drawing "axvline" [hi]
                  [("lw", VFloat F64.one); ("ls", VStr "-."); ("color", VStr "k")];
                Drawing "xlabel" [VStr "Energy (GeV)"] [];
                Drawing "ylabel" [VStr "$P_{a\gamma}$"] []]).
Proof.
  apply (plot_cell_draws_five_commands GammaALPs.flat_power
           (@GammaALPs.model GammaALPs.blank_solver) state_before_plot state_after_plot);
    vm_compute; reflexivity.
Defined.

(** ** X10: the keywords of [add_propagation] *)

(** X10. The cell [ml.add_propagation(...)], in a state where [ml] is an
    object that has no attribute of that name of its own, is one call of
    the method with no positional argument and nine keywords, in the order
    written: the string ['ICMCell'], the integers [order=0] and [nsim=1], and
    floats for the others, [n0=1e-3] and [r_abell=10.1] being the binary64
    numbers nearest to them.  The value returned is dropped, and only the
    objects change, as the method leaves them. *)
Theorem add_propagation_receives_nine_keywords (M : Libm) (L : Library)
    (σ : state) (lm : nat) (om : object) :
  env σ !! "ml" = Some (VRef lm) ->
  heap σ !! lm = Some om ->
  attrs om !! "add_propagation" = None ->
  exec_cell cell_add_propagation σ
  = '(v, h) ← call_method lm "add_propagation" []
                [("environ", VStr "ICMCell"); ("order", VInt 0); ("B0", VFloat F64.one);
                 ("L0", VFloat F64.ten); ("nsim", VInt 1);
                 ("n0", VFloat (S754_finite false 4611686018427388 (-62)));
                 ("r_abell", VFloat (S754_finite false 5685794529555251 (-49)));
                 ("beta", VFloat F64.zero); ("eta", VFloat F64.zero)] (heap σ);
    Some (with_heap h σ).
Proof.
  intros Hml Hom Hattr. unfold cell_add_propagation. cbn [exec_cell]. unfold exec.
  rewrite eval_call.
  rewrite (eval_attr (EName "ml") "add_propagation" (VRef lm)
             (VMethod lm "add_propagation") σ σ);
    [|by apply eval_name|by cbn [getattr]; rewrite Hom; cbn [mbind option_bind]; rewrite Hattr].
  cbn [mbind option_bind eval_all].
  match goal with
  | |- context [eval_keywords ?kws σ] =>
      assert (Hk : eval_keywords kws σ
                   = Some ([("environ", VStr "ICMCell"); ("order", VInt 0);
                            ("B0", VFloat F64.one); ("L0", VFloat F64.ten); ("nsim", VInt 1);
                            ("n0", VFloat (S754_finite false 4611686018427388 (-62)));
                            ("r_abell", VFloat (S754_finite false 5685794529555251 (-49)));
                            ("beta", VFloat F64.zero); ("eta", VFloat F64.zero)], σ))
        by (vm_compute; reflexivity)
  end.
  rewrite Hk. cbn [mbind option_bind call].
  destruct (call_method _ _ _ _ _) as [[v h]|]; reflexivity.
Qed.

(** In the reference run, [ml] is the object at address 2. *)
Lemma add_propagation_receives_nine_keywords_witness :
  @exec_cell GammaALPs.flat_power (@GammaALPs.model GammaALPs.blank_solver)
    cell_add_propagation state_before_add
  = '(v, h) ← @call_method (@GammaALPs.model GammaALPs.blank_solver) 2 "add_propagation" []
                [("environ", VStr "ICMCell"); ("order", VInt 0); ("B0", VFloat F64.one);
                 ("L0", VFloat F64.ten); ("nsim", VInt 1);
                 ("n0", VFloat (S754_finite false 4611686018427388 (-62)));
                 ("r_abell", VFloat (S754_finite false 5685794529555251 (-49)));
                 ("beta", VFloat F64.zero); ("eta", VFloat F64.zero)] (heap state_before_add);
    Some (with_heap h state_before_add).
Proof.
  eapply (add_propagation_receives_nine_keywords _ _ state_before_add 2);
    vm_compute; reflexivity.
Defined.
